(** * pactum: interaction model, mock control plane and handler registry

    A shallow embedding of [src/models/interaction.js] and of the [Mock]
    class (the mock control plane), together with the properties the
    specification states about them.

    JavaScript values live in a heap: objects and arrays are cells reached
    through references, so that aliasing between the caller's objects and the
    fields of a constructed [Interaction] is visible.  Exceptions are results
    of a state-and-error monad; the state a computation leaves behind when it
    throws is kept, as it is in JavaScript.

    Code that is not part of these sources is taken as given: the helpers of
    [src/helpers], the injected server, the store, and the functions found in
    the caller's objects ([toString], [valueOf], [toJSON]).  Each of them is a
    parameter that returns or raises ([Externals]). *)

From stdpp Require Import gmap strings list fin_maps pretty.
From Stdlib Require Import ZArith.

Set Warnings "-register-all".
Local Open Scope string_scope.

(** ** Values *)

(** Numbers: the finite integers, negative zero, NaN and the two infinities.
    Finite numbers with a fractional part are not represented; every operation
    below treats them as it treats a non-zero integer. *)
Inductive number :=
  | NInt (z : Z)
  | NNegZero
  | NNaN
  | NInf (negative : bool).

Definition loc := nat.

(** A function value is opaque and identified by a name. *)
Inductive value :=
  | VUndefined
  | VNull
  | VBool (b : bool)
  | VNum (n : number)
  | VStr (s : string)
  | VFun (f : string)
  | VRef (l : loc).

(** A heap cell is a plain object (own enumerable properties, in order) or an
    array. *)
Inductive cell :=
  | CObj (fields : list (string * value))
  | CArr (elems : list value).

Abbreviation heap := (gmap loc cell).

#[global] Instance number_eq_dec : EqDecision number.
Proof. solve_decision. Defined.

#[global] Instance value_eq_dec : EqDecision value.
Proof. solve_decision. Defined.

Definition value_encode (v : value) : unit + unit + bool + (Z + unit + unit + bool) + string + string + nat :=
  match v with
  | VUndefined => inl (inl (inl (inl (inl (inl tt)))))
  | VNull => inl (inl (inl (inl (inl (inr tt)))))
  | VBool b => inl (inl (inl (inl (inr b))))
  | VNum (NInt z) => inl (inl (inl (inr (inl (inl (inl z))))))
  | VNum NNegZero => inl (inl (inl (inr (inl (inl (inr tt))))))
  | VNum NNaN => inl (inl (inl (inr (inl (inr tt)))))
  | VNum (NInf b) => inl (inl (inl (inr (inr b))))
  | VStr s => inl (inl (inr s))
  | VFun f => inl (inr f)
  | VRef l => inr l
  end.

Definition value_decode (x : unit + unit + bool + (Z + unit + unit + bool) + string + string + nat) : value :=
  match x with
  | inl (inl (inl (inl (inl (inl _))))) => VUndefined
  | inl (inl (inl (inl (inl (inr _))))) => VNull
  | inl (inl (inl (inl (inr b)))) => VBool b
  | inl (inl (inl (inr (inl (inl (inl z)))))) => VNum (NInt z)
  | inl (inl (inl (inr (inl (inl (inr _)))))) => VNum NNegZero
  | inl (inl (inl (inr (inl (inr _))))) => VNum NNaN
  | inl (inl (inl (inr (inr b)))) => VNum (NInf b)
  | inl (inl (inr s)) => VStr s
  | inl (inr f) => VFun f
  | inr l => VRef l
  end.

#[global] Instance value_countable : Countable value.
Proof.
  refine (inj_countable' value_encode value_decode _).
  intros [| |b|[z| | |b]|s|f|l]; reflexivity.
Defined.

(** [typeof v] *)
Definition typeof (v : value) : string :=
  match v with
  | VUndefined => "undefined"
  | VNull => "object"
  | VBool _ => "boolean"
  | VNum _ => "number"
  | VStr _ => "string"
  | VFun _ => "function"
  | VRef _ => "object"
  end.

(** Truthiness (the [ToBoolean] conversion used by [!], [||] and [if]). *)
Definition truthy (v : value) : bool :=
  match v with
  | VUndefined | VNull => false
  | VBool b => b
  | VNum (NInt z) => negb (z =? 0)%Z
  | VNum NNegZero | VNum NNaN => false
  | VNum (NInf _) => true
  | VStr s => negb (String.eqb s "")
  | VFun _ | VRef _ => true
  end.

(** [a || b] on values, with [b] already evaluated. *)
Definition or_else (a b : value) : value := if truthy a then a else b.

(** ** Errors and results *)

(** The error classes of [src/helpers/errors.js] that this code throws, the
    two built-in errors it can run into, the error kind of the handler
    registry (which the specification names [HandlerError]), and [Other]:
    whatever is raised while code taken as given runs (a function of the
    caller, the injected server, the store). *)
Inductive error :=
  | PactumInteractionError (message : string)
  | PactumConfigurationError (message : string)
  | TypeError
  | SyntaxError
  | HandlerError (message : string)
  | Other (what : string).

Inductive result (A : Type) :=
  | Ok (a : A)
  | Throw (e : error).
Arguments Ok {A} a.
Arguments Throw {A} e.

Definition rbind {A B} (r : result A) (k : A → result B) : result B :=
  match r with
  | Ok a => k a
  | Throw e => Throw e
  end.

Notation "'let?' x := r 'in' k" := (rbind r (fun x => k))
  (at level 10, x name, r at level 100, k at level 200).

(** What a call into code taken as given does: it returns, or it raises. *)
Inductive reply (A : Type) :=
  | Returns (a : A)
  | Raises (what : string).
Arguments Returns {A} a.
Arguments Raises {A} what.

Definition of_reply {A} (r : reply A) : result A :=
  match r with
  | Returns a => Ok a
  | Raises what => Throw (Other what)
  end.

(** ** Property access *)

Fixpoint lookup_field (k : string) (fs : list (string * value)) : value :=
  match fs with
  | [] => VUndefined
  | (k', v) :: fs' => if String.eqb k k' then v else lookup_field k fs'
  end.

(** The own property [k] of an object, if it has one. *)
Fixpoint lookup_own (k : string) (fs : list (string * value)) : option value :=
  match fs with
  | [] => None
  | (k', v) :: fs' => if String.eqb k k' then Some v else lookup_own k fs'
  end.

(** [v.k] for the property names this program reads (none of them is an array
    index, [length] or a name found on a built-in prototype).  Reading a
    property of [undefined] or [null] throws a [TypeError], and so does
    destructuring them. *)
Definition get (h : heap) (v : value) (k : string) : result value :=
  match v with
  | VUndefined | VNull => Throw TypeError
  | VRef l =>
      match h !! l with
      | Some (CObj fs) => Ok (lookup_field k fs)
      | _ => Ok VUndefined
      end
  | _ => Ok VUndefined
  end.

(** [Array.isArray(v)] *)
Definition isArray (h : heap) (v : value) : bool :=
  match v with
  | VRef l => match h !! l with Some (CArr _) => true | _ => false end
  | _ => false
  end.

(** ** JSON *)

(** The abstract syntax of a JSON text. *)
Inductive json :=
  | JNull
  | JBool (b : bool)
  | JNum (z : Z)
  | JStr (s : string)
  | JArr (items : list json)
  | JObj (members : list (string * json)).

Definition number_json (n : number) : json :=
  match n with
  | NInt z => JNum z
  | NNegZero => JNum 0
  | NNaN | NInf _ => JNull
  end.

(** What walking a value as a built-in conversion does ([JSON.stringify], or
    the conversion to a string) comes to, as long as no function of the
    caller is involved: the walk is done, it fails with an error, or it
    reaches an object that has a function of its own for the conversion,
    which the conversion calls. *)
Inductive walk (A : Type) :=
  | Walked (a : A)
  | Fails (e : error)
  | CallerCode.
Arguments Walked {A} a.
Arguments Fails {A} e.
Arguments CallerCode {A}.

Definition wbind {A B} (r : walk A) (k : A → walk B) : walk B :=
  match r with
  | Walked a => k a
  | Fails e => Fails e
  | CallerCode => CallerCode
  end.

(** Elements of an array: a value that has no JSON form is written [null]. *)
Fixpoint serialize_items (f : value → walk (option json)) (es : list value)
  : walk (list json) :=
  match es with
  | [] => Walked []
  | e :: es' =>
      wbind (f e) (λ j,
      wbind (serialize_items f es') (λ js,
      Walked (default JNull j :: js)))
  end.

(** Properties of an object: a property whose value has no JSON form is left
    out. *)
Fixpoint serialize_members (f : value → walk (option json)) (fs : list (string * value))
  : walk (list (string * json)) :=
  match fs with
  | [] => Walked []
  | (k, v) :: fs' =>
      wbind (f v) (λ j,
      wbind (serialize_members f fs') (λ ms,
      Walked (match j with Some j' => (k, j') :: ms | None => ms end)))
  end.

(** The object has a callable [toJSON] property (no built-in prototype of a
    plain object or of an array has one). *)
Definition has_toJSON (c : cell) : bool :=
  match c with
  | CObj fs => match lookup_field "toJSON" fs with VFun _ => true | _ => false end
  | CArr _ => false
  end.

(** [SerializeJSONProperty]: an object with a [toJSON] function has it called
    first; otherwise [stack] holds the objects being serialized, and meeting
    one of them again is the circular-structure [TypeError].  [fuel] bounds
    the nesting depth. *)
Fixpoint serialize (fuel : nat) (stack : list loc) (h : heap) (v : value)
  : walk (option json) :=
  match v with
  | VUndefined | VFun _ => Walked None
  | VNull => Walked (Some JNull)
  | VBool b => Walked (Some (JBool b))
  | VNum n => Walked (Some (number_json n))
  | VStr s => Walked (Some (JStr s))
  | VRef l =>
      match h !! l with
      | None => Walked None
      | Some c =>
          if has_toJSON c then CallerCode
          else if bool_decide (l ∈ stack) then Fails TypeError
          else
            match fuel with
            | O => Fails TypeError
            | S fuel' =>
                match c with
                | CObj fs =>
                    wbind (serialize_members (serialize fuel' (l :: stack) h) fs) (λ ms,
                    Walked (Some (JObj ms)))
                | CArr es =>
                    wbind (serialize_items (serialize fuel' (l :: stack) h) es) (λ js,
                    Walked (Some (JArr js)))
                end
            end
      end
  end.

(** The walk of [JSON.stringify(v)].  The stack never holds more than
    [size h] objects, so this fuel is never used up
    ([serialize_fuel_irrelevant]). *)
Definition JSON_walk (h : heap) (v : value) : walk (option json) :=
  serialize (S (size h)) [] h v.

(** [JSON.parse] of the text of [j]: every array and object is a new cell. *)
Fixpoint JSON_parse (j : json) (h : heap) : value * heap :=
  match j with
  | JNull => (VNull, h)
  | JBool b => (VBool b, h)
  | JNum z => (VNum (NInt z), h)
  | JStr s => (VStr s, h)
  | JArr js =>
      let '(vs, h1) :=
        (fix items (js : list json) (h : heap) : list value * heap :=
           match js with
           | [] => ([], h)
           | j :: js' =>
               let '(v, h1) := JSON_parse j h in
               let '(vs, h2) := items js' h1 in
               (v :: vs, h2)
           end) js h in
      let l := fresh (dom h1) in
      (VRef l, <[l := CArr vs]> h1)
  | JObj ms =>
      let '(fs, h1) :=
        (fix members (ms : list (string * json)) (h : heap) : list (string * value) * heap :=
           match ms with
           | [] => ([], h)
           | (k, j) :: ms' =>
               let '(v, h1) := JSON_parse j h in
               let '(fs, h2) := members ms' h1 in
               ((k, v) :: fs, h2)
           end) ms h in
      let l := fresh (dom h1) in
      (VRef l, <[l := CObj fs]> h1)
  end.

(** ** Deep equality *)

(** The structure a value unfolds to, references followed. *)
Inductive tree :=
  | TUndefined
  | TNull
  | TBool (b : bool)
  | TNum (n : number)
  | TStr (s : string)
  | TFun (f : string)
  | TArr (items : list tree)
  | TObj (members : list (string * tree)).

Fixpoint snapshot (depth : nat) (h : heap) (v : value) : option tree :=
  match v with
  | VUndefined => Some TUndefined
  | VNull => Some TNull
  | VBool b => Some (TBool b)
  | VNum n => Some (TNum n)
  | VStr s => Some (TStr s)
  | VFun f => Some (TFun f)
  | VRef l =>
      match depth with
      | O => None
      | S d =>
          match h !! l with
          | None => None
          | Some (CArr es) => TArr <$> mapM (snapshot d h) es
          | Some (CObj fs) =>
              TObj <$> mapM (λ kv, pair kv.1 <$> snapshot d h kv.2) fs
          end
      end
  end.

Fixpoint json_tree (j : json) : tree :=
  match j with
  | JNull => TNull
  | JBool b => TBool b
  | JNum z => TNum (NInt z)
  | JStr s => TStr s
  | JArr js => TArr (map json_tree js)
  | JObj ms => TObj (map (λ kj, (kj.1, json_tree kj.2)) ms)
  end.

Fixpoint json_depth (j : json) : nat :=
  match j with
  | JArr js => S (foldr (λ j d, max (json_depth j) d) 0 js)
  | JObj ms => S (foldr (λ kj d, max (json_depth kj.2) d) 0 ms)
  | _ => 0
  end.

(** Two values are deep-equal when they unfold to the same structure. *)
Definition deep_equal (depth : nat) (h1 : heap) (v1 : value) (h2 : heap) (v2 : value) : Prop :=
  ∃ t, snapshot depth h1 v1 = Some t ∧ snapshot depth h2 v2 = Some t.

(** ** The model classes of [src/models/interaction.js] *)

Module InteractionRequest.
Record t := mk {
  method : value;
  path : value;
  headers : value;
  query : value;
  body : value;
  ignoreBody : value;
  ignoreQuery : value
}.
End InteractionRequest.

Module InteractionResponse.
Record t := mk {
  status : value;
  headers : value;
  rawBody : value;
  body : value
}.
End InteractionResponse.

Module Interaction.
Record t := mk {
  id : value;
  port : value;
  mock : bool;
  consumer : value;
  provider : value;
  state : value;
  uponReceiving : value;
  rawInteraction : value;
  withRequest : InteractionRequest.t;
  willRespondWith : InteractionResponse.t
}.
End Interaction.

(** The calls the injected server object receives. *)
Module Server.
Inductive call :=
  | start (port : value)
  | stop (port : value)
  | addDefaultInteraction (id : value) (interaction : Interaction.t)
  | removeDefaultInteraction (id : value) (port : value)
  | removeDefaultInteractions (port : value).
End Server.

(** What the code takes from outside these sources.

    - [helper.setValueFromMatcher] (the value-matcher transform; it may
      allocate) and [helper.getRandomId] (its n-th call returns
      [getRandomId n]) of [src/helpers/helper.js];
    - the text of a number too large for plain decimal digits, and the source
      text of a function, as a template literal interpolates them;
    - [caller_toString h v]: what the conversion of [v] to a string gives
      once it runs into a [toString] or a [valueOf] function that an object
      has of its own, and the heap that function leaves;
    - [caller_toJSON h v]: what [JSON.stringify v] gives once it runs into a
      [toJSON] function, and the heap that function leaves;
    - [server_reply log c]: what the injected server does on the call [c]
      after the calls [log] (it returns, or it raises);
    - [store_reply log i]: the same for [store.addInteraction] of
      [src/helpers/store.js]. *)
Class Externals := {
  setValueFromMatcher : heap → value → value * heap;
  getRandomId : nat → string;
  number_exponential : Z → string;
  function_source : string → string;
  caller_toString : heap → value → reply string * heap;
  caller_toJSON : heap → value → reply (option json) * heap;
  server_reply : list Server.call → Server.call → reply unit;
  store_reply : list Interaction.t → Interaction.t → reply unit
}.

(** The mutable state of the process: the heap, the two settings of
    [src/config] the code reads, the number of identifiers drawn so far, the
    calls made on the injected [_server], the module-level [interactions] map
    of the control plane, and the interactions handed to
    [store.addInteraction]. *)
Record world := World {
  mem : heap;
  config_mock_port : value;
  config_pact_consumer : value;
  random_ids : nat;
  server : list Server.call;
  interactions : gmap value Interaction.t;
  store : list Interaction.t
}.

Definition set_mem (h : heap) (w : world) : world :=
  World h (config_mock_port w) (config_pact_consumer w) (random_ids w)
    (server w) (interactions w) (store w).

(** Computations that read and write the world and may throw. *)
Definition M (A : Type) : Type := world → result A * world.

Definition ret {A} (a : A) : M A := λ w, (Ok a, w).

Definition bind {A B} (m : M A) (k : A → M B) : M B :=
  λ w, match m w with
       | (Ok a, w') => k a w'
       | (Throw e, w') => (Throw e, w')
       end.

Notation "'let!' x := m 'in' k" := (bind m (fun x => k))
  (at level 10, x name, m at level 100, k at level 200).
Notation "'run' m 'in' k" := (bind m (fun _ => k))
  (at level 10, m at level 100, k at level 200).

(** A computation that only reads the heap. *)
Definition read {A} (f : heap → result A) : M A := λ w, (f (mem w), w).

Section Model.
Context `{Externals}.

(** The text of a number. *)
Definition number_string (n : number) : string :=
  match n with
  | NInt z => if (Z.abs z <? 10 ^ 21)%Z then pretty z else number_exponential z
  | NNegZero => "0"
  | NNaN => "NaN"
  | NInf false => "Infinity"
  | NInf true => "-Infinity"
  end.

(** [Array.prototype.join]: the elements are written one after the other,
    separated by commas, [undefined] and [null] as the empty text. *)
Fixpoint join_items (f : value → walk string) (es : list value) : walk string :=
  match es with
  | [] => Walked ""
  | e :: es' =>
      wbind (match e with VUndefined | VNull => Walked "" | _ => f e end) (λ s,
      match es' with
      | [] => Walked s
      | _ => wbind (join_items f es') (λ rest, Walked (s +:+ "," +:+ rest))
      end)
  end.

(** The conversion of a value to a string, up to the first call of a function
    of the caller.  For a plain object this is [OrdinaryToPrimitive] with
    hint string: [toString] is tried first and [valueOf] next, a property of
    the object's own shadowing the one of [Object.prototype]; the inherited
    [toString] gives [[object Object]], and when neither is callable, or the
    inherited [valueOf] is all there is left, the conversion is a
    [TypeError].  For an array it is the join of its elements; [stack] holds
    the arrays being joined, and one of them met again is written as the
    empty text.  [fuel] bounds the nesting depth. *)
Fixpoint to_text (fuel : nat) (stack : list loc) (h : heap) (v : value) : walk string :=
  match v with
  | VUndefined => Walked "undefined"
  | VNull => Walked "null"
  | VBool true => Walked "true"
  | VBool false => Walked "false"
  | VNum n => Walked (number_string n)
  | VStr s => Walked s
  | VFun f => Walked (function_source f)
  | VRef l =>
      match h !! l with
      | None => Fails TypeError
      | Some (CObj fs) =>
          match lookup_own "toString" fs with
          | None => Walked "[object Object]"
          | Some (VFun _) => CallerCode
          | Some _ =>
              match lookup_own "valueOf" fs with
              | Some (VFun _) => CallerCode
              | _ => Fails TypeError
              end
          end
      | Some (CArr es) =>
          if bool_decide (l ∈ stack) then Walked ""
          else
            match fuel with
            | O => Fails TypeError
            | S fuel' => join_items (to_text fuel' (l :: stack) h) es
            end
      end
  end.

(** The string a template literal [`${v}`] interpolates, and the heap
    afterwards, which is the heap before unless a conversion function of the
    caller has run.  The stack never holds more than [size h] arrays, so this
    fuel is never used up ([to_text_fuel_irrelevant]). *)
Definition ToString (h : heap) (v : value) : result string * heap :=
  match to_text (S (size h)) [] h v with
  | Walked s => (Ok s, h)
  | Fails e => (Throw e, h)
  | CallerCode => let '(r, h') := caller_toString h v in (of_reply r, h')
  end.

(** The error of [throw new E(`<prefix>${v}`)]: the template literal is
    evaluated first, so what the conversion of [v] raises is what is
    thrown. *)
Definition template_error (E : string → error) (prefix : string) (h : heap) (v : value)
  : error :=
  match (ToString h v).1 with
  | Ok s => E (prefix +:+ s)
  | Throw e => e
  end.

Definition interaction_error := template_error PactumInteractionError.

Definition configuration_error := template_error PactumConfigurationError.

(** [throw e] *)
Definition throw {A} (e : error) : M A := λ w, (Throw e, w).

(** [throw new E(`<prefix>${v}`)] *)
Definition throw_template {A} (E : string → error) (prefix : string) (v : value) : M A :=
  λ w, (Throw (template_error E prefix (mem w) v), set_mem (ToString (mem w) v).2 w).

(** [if (c) <statement>] *)
Definition when (c : bool) (m : M unit) : M unit := if c then m else ret tt.

Definition ALLOWED_REQUEST_METHODS : gset string :=
  list_to_set ["GET"; "POST"; "PUT"; "DELETE"; "PATCH"; "HEAD"].

(** [ALLOWED_REQUEST_METHODS.has(v)] *)
Definition has (s : gset string) (v : value) : bool :=
  match v with
  | VStr m => bool_decide (m ∈ s)
  | _ => false
  end.

(** [typeof v !== 'string' || !v] *)
Definition not_text (v : value) : bool :=
  negb (String.eqb (typeof v) "string") || negb (truthy v).

Definition new_InteractionRequest (h : heap) (request : value)
  : result InteractionRequest.t :=
  let? method := get h request "method" in
  let? path := get h request "path" in
  let? headers := get h request "headers" in
  let? query := get h request "query" in
  let? body := get h request "body" in
  let? ignoreBody := get h request "ignoreBody" in
  let? ignoreQuery := get h request "ignoreQuery" in
  Ok (InteractionRequest.mk method path headers query body
        (if String.eqb (typeof ignoreBody) "boolean" then ignoreBody else VBool false)
        (if String.eqb (typeof ignoreQuery) "boolean" then ignoreQuery else VBool false)).

(** [JSON.stringify(v)], up to the concrete text: the JSON value written
    (none when the result is [undefined]) and the heap afterwards, which is
    the heap before unless a [toJSON] function has run. *)
Definition JSON_stringify (h : heap) (v : value) : result (option json) * heap :=
  match JSON_walk h v with
  | Walked j => (Ok j, h)
  | Fails e => (Throw e, h)
  | CallerCode => let '(r, h') := caller_toJSON h v in (of_reply r, h')
  end.

(** [JSON.parse(JSON.stringify(v))]; [JSON.parse(undefined)] is a
    [SyntaxError]. *)
Definition json_copy (v : value) : M value :=
  λ w, let '(r, h1) := JSON_stringify (mem w) v in
       match r with
       | Throw e => (Throw e, set_mem h1 w)
       | Ok None => (Throw SyntaxError, set_mem h1 w)
       | Ok (Some j) => let '(v', h') := JSON_parse j h1 in (Ok v', set_mem h' w)
       end.

Definition call_setValueFromMatcher (v : value) : M value :=
  λ w, let '(v', h') := setValueFromMatcher (mem w) v in (Ok v', set_mem h' w).

Definition new_InteractionResponse (response : value) : M InteractionResponse.t :=
  let! status := read (λ h, get h response "status") in
  let! headers := read (λ h, get h response "headers") in
  let! body := read (λ h, get h response "body") in
  let! rawBody :=
    (if truthy body && String.eqb (typeof body) "object"
     then json_copy body
     else ret body) in
  let! body' := call_setValueFromMatcher body in
  ret (InteractionResponse.mk status headers rawBody body').

Definition validateInteraction (rawInteraction : value) (mock : bool) : M unit :=
  run when (negb (String.eqb (typeof rawInteraction) "object"))
        (throw (PactumInteractionError "Invalid interaction provided")) in
  let! provider := read (λ h, get h rawInteraction "provider") in
  let! state := read (λ h, get h rawInteraction "state") in
  let! uponReceiving := read (λ h, get h rawInteraction "uponReceiving") in
  let! withRequest := read (λ h, get h rawInteraction "withRequest") in
  let! willRespondWith := read (λ h, get h rawInteraction "willRespondWith") in
  run when (negb mock)
        (run when (not_text provider)
               (throw_template PactumInteractionError
                  "Invalid provider name provided - " provider) in
         run when (not_text state)
               (throw_template PactumInteractionError "Invalid state provided - " state) in
         when (not_text uponReceiving)
           (throw_template PactumInteractionError
              "Invalid upon receiving description provided - " uponReceiving)) in
  run when (negb (String.eqb (typeof withRequest) "object"))
        (throw_template PactumInteractionError
           "Invalid interaction request provided - " withRequest) in
  let! method := read (λ h, get h withRequest "method") in
  run when (not_text method)
        (throw_template PactumInteractionError
           "Invalid interaction request method provided - " method) in
  run when (negb (has ALLOWED_REQUEST_METHODS method))
        (throw_template PactumInteractionError
           "Invalid interaction request method provided - " method) in
  let! path := read (λ h, get h withRequest "path") in
  run when (not_text path)
        (throw_template PactumInteractionError
           "Invalid interaction request path provided - " path) in
  run when (negb mock)
        (let! ignoreQuery := read (λ h, get h withRequest "ignoreQuery") in
         run when (truthy ignoreQuery)
               (throw (PactumInteractionError
                         "Pact interaction won't support ignore query")) in
         let! ignoreBody := read (λ h, get h withRequest "ignoreBody") in
         when (truthy ignoreBody)
           (throw (PactumInteractionError "Pact interaction won't support ignore body"))) in
  run when (negb (String.eqb (typeof willRespondWith) "object"))
        (throw_template PactumInteractionError
           "Invalid interaction request provided - " willRespondWith) in
  let! status := read (λ h, get h willRespondWith "status") in
  when (negb (String.eqb (typeof status) "number"))
    (throw_template PactumInteractionError
       "Invalid interaction response status provided - " status).

(** [helper.getRandomId()] *)
Definition call_getRandomId : M value :=
  λ w, (Ok (VStr (getRandomId (random_ids w))),
        World (mem w) (config_mock_port w) (config_pact_consumer w) (S (random_ids w))
          (server w) (interactions w) (store w)).

(** [a || b()] : [b] runs only when [a] is falsy. *)
Definition or_else_call (a : value) (b : M value) : M value :=
  if truthy a then ret a else b.

(** [new Interaction(rawInteraction, mock)] *)
Definition new_Interaction (rawInteraction : value) (mock : bool) : M Interaction.t :=
  run validateInteraction rawInteraction mock in
  let! id := read (λ h, get h rawInteraction "id") in
  let! port := read (λ h, get h rawInteraction "port") in
  let! consumer := read (λ h, get h rawInteraction "consumer") in
  let! provider := read (λ h, get h rawInteraction "provider") in
  let! state := read (λ h, get h rawInteraction "state") in
  let! uponReceiving := read (λ h, get h rawInteraction "uponReceiving") in
  let! withRequest := read (λ h, get h rawInteraction "withRequest") in
  let! willRespondWith := read (λ h, get h rawInteraction "willRespondWith") in
  let! id' := or_else_call id call_getRandomId in
  let! port' := (λ w, (Ok (or_else port (config_mock_port w)), w)) in
  let! consumer' := (λ w, (Ok (or_else consumer (config_pact_consumer w)), w)) in
  let! request := read (λ h, new_InteractionRequest h withRequest) in
  let! response := new_InteractionResponse willRespondWith in
  ret (Interaction.mk id' port' mock consumer' provider state uponReceiving
         rawInteraction request response).

End Model.

(** ** The mock control plane (class [Mock]) *)

Module Mock.
Section Methods.
Context `{Externals}.

(** [_server.<call>] : the injected server receives the call, and returns or
    raises. *)
Definition call_server (c : Server.call) : M unit :=
  λ w, (of_reply (server_reply (server w) c),
        World (mem w) (config_mock_port w) (config_pact_consumer w) (random_ids w)
          (server w ++ [c]) (interactions w) (store w)).

(** A parameter declared [port = config.mock.port]. *)
Definition default_port (port : value) : M value :=
  λ w, (Ok (match port with VUndefined => config_mock_port w | _ => port end), w).

Definition is_number (v : value) : bool := String.eqb (typeof v) "number".

(** [new Mock(ser)]: the check of the constructor.  The server object itself
    is represented by the calls it receives. *)
Definition new (ser : value) : M unit :=
  if negb (String.eqb (typeof ser) "object") || bool_decide (ser = VNull) then
    throw_template PactumConfigurationError "Invalid server provided to mock - " ser
  else ret tt.

Definition start (port : value) : M unit :=
  let! port := default_port port in
  if negb (is_number port) then
    throw_template PactumConfigurationError
      "Invalid port number given to start the mock server - " port
  else call_server (Server.start port).

Definition stop (port : value) : M unit :=
  let! port := default_port port in
  if negb (is_number port) then
    throw_template PactumConfigurationError
      "Invalid port number given to stop the mock server - " port
  else call_server (Server.stop port).

Definition setDefaultPort (port : value) : M unit :=
  if negb (is_number port) then
    throw_template PactumConfigurationError "Invalid default port number - " port
  else
    λ w, (Ok tt,
          World (mem w) port (config_pact_consumer w) (random_ids w)
            (server w) (interactions w) (store w)).

Definition addDefaultMockInteraction (interaction : value) : M value :=
  let! interactionObj := new_Interaction interaction true in
  run call_server (Server.addDefaultInteraction (Interaction.id interactionObj) interactionObj) in
  ret (Interaction.id interactionObj).

(** The elements of an array. *)
Definition elements_of (h : heap) (v : value) : list value :=
  match v with
  | VRef l => match h !! l with Some (CArr es) => es | _ => [] end
  | _ => []
  end.

(** The [for] loop of the two batch methods, over the elements the array has
    when the loop is entered: the code of the loop stores into no existing
    cell, and the code it calls from outside (the transform, a [toJSON] or a
    conversion function of the caller) is taken not to store into the array
    that is being registered.  [ids] is the array being filled, returned as
    the list of its elements. *)
Fixpoint batch_loop (mock : bool) (elems : list value) (ids : list value)
  : M (list value) :=
  match elems with
  | [] => ret ids
  | e :: elems' =>
      let! interactionObj := new_Interaction e mock in
      run call_server
            (Server.addDefaultInteraction (Interaction.id interactionObj) interactionObj) in
      batch_loop mock elems' (ids ++ [Interaction.id interactionObj])
  end.

Definition addDefaultMockInteractions (interactions : value) : M (list value) :=
  λ w,
    if negb (isArray (mem w) interactions) then
      throw_template PactumConfigurationError
        "Invalid mock interactions array passed - " interactions w
    else batch_loop true (elements_of (mem w) interactions) [] w.

(** [interactions.set(id, interactionObj)] *)
Definition interactions_set (id : value) (interactionObj : Interaction.t) : M unit :=
  λ w, (Ok tt,
        World (mem w) (config_mock_port w) (config_pact_consumer w) (random_ids w)
          (server w) (<[id := interactionObj]> (interactions w)) (store w)).

(** [store.addInteraction(interactionObj)]: the store receives the
    interaction, and returns or raises. *)
Definition store_addInteraction (interactionObj : Interaction.t) : M unit :=
  λ w, (of_reply (store_reply (store w) interactionObj),
        World (mem w) (config_mock_port w) (config_pact_consumer w) (random_ids w)
          (server w) (interactions w) (store w ++ [interactionObj])).

Definition addDefaultPactInteraction (interaction : value) : M value :=
  let! interactionObj := new_Interaction interaction false in
  run interactions_set (Interaction.id interactionObj) interactionObj in
  run call_server (Server.addDefaultInteraction (Interaction.id interactionObj) interactionObj) in
  run store_addInteraction interactionObj in
  ret (Interaction.id interactionObj).

Definition addDefaultPactInteractions (interactions : value) : M (list value) :=
  λ w,
    if negb (isArray (mem w) interactions) then
      throw_template PactumConfigurationError
        "Invalid pact interactions array passed - " interactions w
    else batch_loop false (elements_of (mem w) interactions) [] w.

Definition removeDefaultInteraction (interactionId : value) (port : value) : M unit :=
  let! port := default_port port in
  if not_text interactionId then
    throw_template PactumConfigurationError "Invalid interaction id - " interactionId
  else if negb (is_number port) then
    throw_template PactumConfigurationError "Invalid port number - " port
  else call_server (Server.removeDefaultInteraction interactionId port).

Definition removeDefaultInteractions (port : value) : M unit :=
  let! port := default_port port in
  call_server (Server.removeDefaultInteractions port).

End Methods.
End Mock.

(** ** Examples: a concrete world *)

(** Externals used to run the model on concrete inputs: the identity
    transform, identifiers [id0], [id1], ..., a server and a store that
    always return, and functions of the caller that always raise. *)
Definition sample_externals : Externals :=
  {| setValueFromMatcher := λ h v, (v, h);
     getRandomId := λ n, "id" +:+ String (Ascii.ascii_of_nat (48 + n)) "";
     number_exponential := λ z, pretty z;
     function_source := λ f, "function " +:+ f +:+ "() { }";
     caller_toString := λ h _, (Raises "toString", h);
     caller_toJSON := λ h _, (Raises "toJSON", h);
     server_reply := λ _ _, Returns tt;
     store_reply := λ _ _, Returns tt |}.

Definition world_of (h : heap) : world :=
  World h (VNum (NInt 9393)) (VStr "consumer") 0 [] ∅ [].

(** ** Notions used in the statements *)

(** The three fields a contract needs are non-empty text. *)
Definition contract_fields (h : heap) (rawInteraction : value) : Prop :=
  ∃ provider state uponReceiving,
    get h rawInteraction "provider" = Ok provider ∧ not_text provider = false
    ∧ get h rawInteraction "state" = Ok state ∧ not_text state = false
    ∧ get h rawInteraction "uponReceiving" = Ok uponReceiving
    ∧ not_text uponReceiving = false.

(** The two ignore flags of a request are falsy. *)
Definition contract_flags (h : heap) (withRequest : value) : Prop :=
  ∃ ignoreQuery ignoreBody,
    get h withRequest "ignoreQuery" = Ok ignoreQuery ∧ truthy ignoreQuery = false
    ∧ get h withRequest "ignoreBody" = Ok ignoreBody ∧ truthy ignoreBody = false.

(** What [validateInteraction] asks of a raw interaction: an allowed method,
    a non-empty text path and a numeric status, and in contract mode the
    contract fields and falsy ignore flags. *)
Definition valid_interaction (h : heap) (rawInteraction : value) (mock : bool) : Prop :=
  ∃ withRequest willRespondWith method path status,
    get h rawInteraction "withRequest" = Ok withRequest
    ∧ get h rawInteraction "willRespondWith" = Ok willRespondWith
    ∧ get h withRequest "method" = Ok method
    ∧ not_text method = false
    ∧ has ALLOWED_REQUEST_METHODS method = true
    ∧ get h withRequest "path" = Ok path
    ∧ not_text path = false
    ∧ get h willRespondWith "status" = Ok status
    ∧ typeof status = "number"
    ∧ (mock = false → contract_fields h rawInteraction ∧ contract_flags h withRequest).

(** The cell has the reference [l] among its property values or elements. *)
Definition cell_refers (c : cell) (l : loc) : Prop :=
  match c with
  | CObj fs => ∃ k, (k, VRef l) ∈ fs
  | CArr es => VRef l ∈ es
  end.



(** The computation writes to the heap only: the configuration, the
    identifiers drawn, the server, the table and the store stay as they are. *)
Definition writes_heap_only {A} (m : M A) : Prop :=
  ∀ w r w', m w = (r, w') → w' = set_mem (mem w') w.

(** The body of a response can be copied through JSON: it is not an object,
    or [JSON.stringify] returns a text for it. *)
Definition copyable `{Externals} (h : heap) (body : value) : Prop :=
  truthy body && String.eqb (typeof body) "object" = false
  ∨ ∃ j h', JSON_stringify h body = (Ok (Some j), h').














(** The registration of a constructed interaction with the server. *)
Definition registration (o : Interaction.t) : Server.call :=
  Server.addDefaultInteraction (Interaction.id o) o.

(** The two loops of [JSON_parse], named. *)
Fixpoint parse_items (js : list json) (h : heap) : list value * heap :=
  match js with
  | [] => ([], h)
  | j :: js' =>
      let '(v, h1) := JSON_parse j h in
      let '(vs, h2) := parse_items js' h1 in
      (v :: vs, h2)
  end.

Fixpoint parse_members (ms : list (string * json)) (h : heap)
  : list (string * value) * heap :=
  match ms with
  | [] => ([], h)
  | (k, j) :: ms' =>
      let '(v, h1) := JSON_parse j h in
      let '(fs, h2) := parse_members ms' h1 in
      ((k, v) :: fs, h2)
  end.

(** [h2] has the cells of [h1] that [h] does not have. *)
Definition keeps_new (h h1 h2 : heap) : Prop :=
  ∀ l c, h1 !! l = Some c → h !! l = None → h2 !! l = Some c.

(** What parsing a JSON value does to the heap: it only adds cells, and the
    value it returns unfolds to the JSON value in every heap that has the
    added cells. *)
Definition parse_ok (j : json) : Prop :=
  ∀ h v h', JSON_parse j h = (v, h') →
    h ⊆ h'
    ∧ ∀ h2 d, keeps_new h h' h2 → (json_depth j ≤ d)%nat →
        snapshot d h2 v = Some (json_tree j).

(** ** The named handler registry *)

Module Handler.

(** Modelled from the spec: the handler kinds of [src/exports/handler.js],
    a file that is not among the sources (only its tests are).  The labels of
    the data and the three interaction kinds are those the tests expect in the
    lookup message; the other four follow the same pattern. *)
Inductive kind :=
  | Expect
  | Retry
  | Return
  | State
  | Data
  | BasicInteraction
  | MockInteraction
  | PactInteraction.

(** Modelled from the spec: the human-readable label of a kind, absent from
    the sources like the registry itself. *)
Definition label (k : kind) : string :=
  match k with
  | Expect => "Expect"
  | Retry => "Retry"
  | Return => "Return"
  | State => "State"
  | Data => "Data"
  | BasicInteraction => "Interaction"
  | MockInteraction => "Mock Interaction"
  | PactInteraction => "Pact Interaction"
  end.

(** Modelled from the spec: the registry of one kind, a map from names to
    functions (the registries of [src/exports/handler.js] are missing). *)
Abbreviation registry := (gmap string value).

(** Modelled from the spec: [add(name, func)] of the missing
    [src/exports/handler.js]; [name] is absent ([None]) or a text, and the
    name is checked before the function. *)
Definition add (name : option string) (func : value) (r : registry) : result registry :=
  match name with
  | None => Throw (HandlerError "`name` is required")
  | Some n =>
      if String.eqb n "" then Throw (HandlerError "`name` is required")
      else if negb (String.eqb (typeof func) "function")
           then Throw (HandlerError "`func` is required")
           else Ok (<[n := func]> r)
  end.

(** Modelled from the spec: [get(name)] of the missing
    [src/exports/handler.js], for the registry of kind [k]. *)
Definition get (k : kind) (name : string) (r : registry) : result value :=
  match r !! name with
  | Some func => Ok func
  | None =>
      Throw (HandlerError ("Custom " +:+ label k +:+ " Handler Not Found - " +:+ name))
  end.

End Handler.

(** ** Concrete inputs *)

(** A raw request with a truthy string for [ignoreBody] and the number 1 for
    [ignoreQuery]. *)
Definition heap_flags : heap :=
  {[ 1 := CObj [("method", VStr "GET"); ("path", VStr "/api");
                ("ignoreBody", VStr "yes"); ("ignoreQuery", VNum (NInt 1))] ]}.

(** A mock interaction whose [id] is the empty string, whose [port] is 0 and
    whose [consumer] is the empty string. *)
Definition heap_falsy : heap :=
  list_to_map [
    (1, CObj [("id", VStr ""); ("port", VNum (NInt 0)); ("consumer", VStr "");
              ("withRequest", VRef 2); ("willRespondWith", VRef 3)]);
    (2, CObj [("method", VStr "GET"); ("path", VStr "/api/projects")]);
    (3, CObj [("status", VNum (NInt 200))])].

(** A raw interaction with the method [get] in lower case and no [provider]:
    it is a mock interaction with a bad method, and a contract interaction
    whose first violation is the missing provider. *)
Definition heap_lowercase_method : heap :=
  list_to_map [
    (1, CObj [("withRequest", VRef 2); ("willRespondWith", VRef 3)]);
    (2, CObj [("method", VStr "get"); ("path", VStr "/api/projects")]);
    (3, CObj [("status", VNum (NInt 200))])].



(** Two valid mock interactions followed by one without [willRespondWith]. *)
Definition heap_batch : heap :=
  list_to_map [
    (1, CObj [("id", VStr "first"); ("withRequest", VRef 2); ("willRespondWith", VRef 3)]);
    (2, CObj [("method", VStr "GET"); ("path", VStr "/api/projects")]);
    (3, CObj [("status", VNum (NInt 200)); ("body", VRef 6)]);
    (4, CObj [("withRequest", VRef 2); ("willRespondWith", VRef 3)]);
    (5, CObj [("withRequest", VRef 2)]);
    (6, CObj [("name", VStr "pactum")]);
    (7, CArr [VRef 1; VRef 4; VRef 5])].

(** One valid pact interaction, alone and in an array. *)
Definition heap_pact : heap :=
  list_to_map [
    (1, CObj [("provider", VStr "project-service"); ("state", VStr "there is a project");
              ("uponReceiving", VStr "a request for the project");
              ("withRequest", VRef 2); ("willRespondWith", VRef 3)]);
    (2, CObj [("method", VStr "GET"); ("path", VStr "/api/projects/1")]);
    (3, CObj [("status", VNum (NInt 200))]);
    (4, CArr [VRef 1])].

(** The interaction constructed from it. *)
Definition pact_object : Interaction.t :=
  Interaction.mk (VStr "id0") (VNum (NInt 9393)) false (VStr "consumer")
    (VStr "project-service") (VStr "there is a project")
    (VStr "a request for the project") (VRef 1)
    (InteractionRequest.mk (VStr "GET") (VStr "/api/projects/1") VUndefined VUndefined
       VUndefined (VBool false) (VBool false))
    (InteractionResponse.mk (VNum (NInt 200)) VUndefined VUndefined VUndefined).

(** A response whose body is an object with a nested array. *)
Definition heap_body : heap :=
  list_to_map [
    (1, CObj [("status", VNum (NInt 200)); ("body", VRef 2)]);
    (2, CObj [("name", VStr "pactum"); ("tags", VRef 3)]);
    (3, CArr [VStr "mock"; VNum (NInt 1); VBool true; VNull])].

Definition json_body : json :=
  JObj [("name", JStr "pactum");
        ("tags", JArr [JStr "mock"; JNum 1; JBool true; JNull])].

(** A response whose body holds NaN. *)
Definition heap_nan : heap :=
  list_to_map [
    (1, CObj [("status", VNum (NInt 200)); ("body", VRef 2)]);
    (2, CObj [("value", VNum NNaN)])].

(** A mock interaction whose request has no [path]. *)
Definition heap_no_path : heap :=
  list_to_map [
    (1, CObj [("withRequest", VRef 2); ("willRespondWith", VRef 3)]);
    (2, CObj [("method", VStr "GET")]);
    (3, CObj [("status", VNum (NInt 200))])].

(** A mock interaction whose response body has itself as a property. *)
Definition heap_cycle : heap :=
  list_to_map [
    (1, CObj [("withRequest", VRef 2); ("willRespondWith", VRef 3)]);
    (2, CObj [("method", VStr "GET"); ("path", VStr "/api/projects")]);
    (3, CObj [("status", VNum (NInt 200)); ("body", VRef 4)]);
    (4, CObj [("name", VStr "pactum"); ("self", VRef 4)])].

(** A pact interaction with an id of its own. *)
Definition heap_pact_id : heap :=
  list_to_map [
    (1, CObj [("id", VStr "p1"); ("provider", VStr "project-service");
              ("state", VStr "there is a project");
              ("uponReceiving", VStr "a request for the project");
              ("withRequest", VRef 2); ("willRespondWith", VRef 3)]);
    (2, CObj [("method", VStr "GET"); ("path", VStr "/api/projects/1")]);
    (3, CObj [("status", VNum (NInt 200))])].

(** A mock interaction with the number 7 for id and an object for request
    body. *)
Definition heap_post : heap :=
  list_to_map [
    (1, CObj [("id", VNum (NInt 7)); ("withRequest", VRef 2); ("willRespondWith", VRef 3)]);
    (2, CObj [("method", VStr "POST"); ("path", VStr "/api/projects"); ("body", VRef 4)]);
    (3, CObj [("status", VNum (NInt 201))]);
    (4, CObj [("name", VStr "pactum")])].

(** An object without a text: its [toString] is not a function, and the
    [valueOf] it inherits returns the object itself. *)
Definition heap_no_text : heap :=
  {[ 1 := CObj [("toString", VNum (NInt 1))] ]}.

(** A contract interaction whose [provider] is such an object. *)
Definition heap_provider_object : heap :=
  list_to_map [
    (1, CObj [("provider", VRef 4); ("state", VStr "there is a project");
              ("uponReceiving", VStr "a request for the project");
              ("withRequest", VRef 2); ("willRespondWith", VRef 3)]);
    (2, CObj [("method", VStr "GET"); ("path", VStr "/api/projects/1")]);
    (3, CObj [("status", VNum (NInt 200))]);
    (4, CObj [("toString", VNum (NInt 1))])].

(** * Properties *)

(** ** Stepping through the monad *)

Lemma bind_Ok_inv {A B} (m : M A) (k : A → M B) w b w' :
  bind m k w = (Ok b, w') →
  ∃ a w1, m w = (Ok a, w1) ∧ k a w1 = (Ok b, w').
Proof.
  unfold bind. destruct (m w) as [[a|e] w1]; intros Hk; [eauto | discriminate].
Qed.

Lemma bind_Throw_inv {A B} (m : M A) (k : A → M B) w e w' :
  bind m k w = (Throw e, w') →
  m w = (Throw e, w') ∨ ∃ a w1, m w = (Ok a, w1) ∧ k a w1 = (Throw e, w').
Proof.
  unfold bind. destruct (m w) as [[a|e1] w1]; intros Hk; [right; eauto | left; congruence].
Qed.

Lemma bind_Ok {A B} (m : M A) (k : A → M B) w a w1 :
  m w = (Ok a, w1) → bind m k w = k a w1.
Proof. unfold bind. intros ->. reflexivity. Qed.

Lemma bind_Throw {A B} (m : M A) (k : A → M B) w e w1 :
  m w = (Throw e, w1) → bind m k w = (Throw e, w1).
Proof. unfold bind. intros ->. reflexivity. Qed.

Lemma read_inv {A} (f : heap → result A) w r w1 :
  read f w = (r, w1) → f (mem w) = r ∧ w1 = w.
Proof. unfold read. intros [= <- <-]. auto. Qed.

Lemma rbind_Ok_inv {A B} (r : result A) (k : A → result B) b :
  rbind r k = Ok b → ∃ a, r = Ok a ∧ k a = Ok b.
Proof. destruct r; simpl; intros Hk; [eauto | discriminate]. Qed.

Lemma bind_read {A B} (f : heap → result A) (k : A → M B) w a :
  f (mem w) = Ok a → bind (read f) k w = k a w.
Proof. unfold bind, read. intros ->. reflexivity. Qed.

Lemma bind_when_false {B} (m : M unit) (k : unit → M B) w :
  bind (when false m) k w = k tt w.
Proof. reflexivity. Qed.

Lemma bind_when_true {B} (m : M unit) (k : unit → M B) w :
  bind (when true m) k w = bind m k w.
Proof. reflexivity. Qed.

(** A guarded [throw] returns only when the guard is false. *)
Lemma when_throw_Ok_inv c e w u w' :
  when c (throw e) w = (Ok u, w') → c = false ∧ w' = w.
Proof. destruct c; [discriminate|]. intros [= _ <-]. auto. Qed.


(** Takes apart a hypothesis [H : <sequence of binds> w = (Ok _, _)]. *)
Ltac step_ok H :=
  let a := fresh "a" in
  let w1 := fresh "w" in
  let Hm := fresh "Hm" in
  apply bind_Ok_inv in H as (a & w1 & Hm & H).

Ltac step_read H :=
  let a := fresh "a" in
  let w1 := fresh "w" in
  let Hm := fresh "Hm" in
  apply bind_Ok_inv in H as (a & w1 & Hm & H);
  apply read_inv in Hm as [Hm ->].

Section Properties.
Context `{Externals}.

(** ** Interaction construction: rejected inputs *)

(** A value that is not of type [object] is rejected by the first check. *)
Lemma new_Interaction_not_object rawInteraction mock w :
  typeof rawInteraction ≠ "object" →
  new_Interaction rawInteraction mock w
  = (Throw (PactumInteractionError "Invalid interaction provided"), w).
Proof.
  intros Hty. destruct rawInteraction; try (exfalso; apply Hty; reflexivity);
    reflexivity.
Qed.

(** The constructor of [Mock], which makes the same [typeof] test on its
    argument, does reject [null]. *)
Lemma Mock_new_null w :
  Mock.new VNull w
  = (Throw (PactumConfigurationError "Invalid server provided to mock - null"), w).
Proof. destruct w. reflexivity. Qed.

(** C2 (the code at the failing input): [null] has type [object], so it passes
    the first check of [validateInteraction]; the destructuring that follows
    throws a [TypeError], not the [PactumInteractionError] required for an
    input that is not a structured object. *)
Theorem new_Interaction_null mock w :
  typeof VNull = "object"
  ∧ new_Interaction VNull mock w = (Throw TypeError, w)
  ∧ ∀ msg, new_Interaction VNull mock w ≠ (Throw (PactumInteractionError msg), w).
Proof.
  split; [reflexivity|]. split; [reflexivity|]. intros msg. discriminate.
Qed.

(** ** The request descriptor *)

(** C9: the [ignoreBody] and [ignoreQuery] fields of a constructed
    [InteractionRequest] are booleans: the value the raw request supplies when
    that value is a boolean, and [false] otherwise. *)
Theorem InteractionRequest_flags_boolean h request r :
  new_InteractionRequest h request = Ok r →
  typeof (InteractionRequest.ignoreBody r) = "boolean"
  ∧ typeof (InteractionRequest.ignoreQuery r) = "boolean"
  ∧ (∀ v, get h request "ignoreBody" = Ok v →
       InteractionRequest.ignoreBody r
       = match v with VBool b => VBool b | _ => VBool false end)
  ∧ (∀ v, get h request "ignoreQuery" = Ok v →
       InteractionRequest.ignoreQuery r
       = match v with VBool b => VBool b | _ => VBool false end).
Proof.
  unfold new_InteractionRequest. intros Hr.
  repeat (apply rbind_Ok_inv in Hr as (? & ? & Hr)).
  injection Hr as <-. simpl.
  match goal with
  | Hb : get h request "ignoreBody" = Ok ?b, Hq : get h request "ignoreQuery" = Ok ?q |- _ =>
      rewrite Hb, Hq; repeat split;
      try (intros v [= <-]); try (destruct b; reflexivity); destruct q; reflexivity
  end.
Qed.

End Properties.

Lemma InteractionRequest_flags_boolean_witness :
  ∃ r, new_InteractionRequest heap_flags (VRef 1) = Ok r
       ∧ InteractionRequest.ignoreBody r = VBool false
       ∧ InteractionRequest.ignoreQuery r = VBool false.
Proof.
  eexists. split; [reflexivity|].
  pose proof (InteractionRequest_flags_boolean heap_flags (VRef 1) _ eq_refl)
    as (_ & _ & Hb & Hq).
  split; [exact (Hb _ eq_refl) | exact (Hq _ eq_refl)].
Defined.

(** ** Validation order *)

Section Validation.
Context `{Externals}.

(** Reading a property throws for [undefined] and [null] only, whatever the
    property. *)
Lemma get_defined h v k v0 k' : get h v k = Ok v0 → ∃ v', get h v k' = Ok v'.
Proof.
  destruct v; simpl; try discriminate; eauto.
  destruct (h !! l) as [[fs|es]|]; eauto.
Qed.

(** Only an object has a property that is not [undefined]. *)
Lemma get_object h v k v0 : get h v k = Ok v0 → v0 ≠ VUndefined → typeof v = "object".
Proof.
  destruct v; simpl; try discriminate; try (intros [= <-]; contradiction); reflexivity.
Qed.

(** A guarded [throw] of a template returns only when the guard is false. *)
Lemma when_template_Ok_inv c E prefix v w u w' :
  when c (throw_template E prefix v) w = (Ok u, w') → c = false ∧ w' = w.
Proof. destruct c; [discriminate|]. intros [= _ <-]. auto. Qed.


(** A raw interaction that fails validation is rejected by the constructor,
    with the error of the validation. *)
Lemma new_Interaction_invalid rawInteraction mock w e w' :
  validateInteraction rawInteraction mock w = (Throw e, w') →
  new_Interaction rawInteraction mock w = (Throw e, w').
Proof. intros Hv. unfold new_Interaction. apply bind_Throw. exact Hv. Qed.

(** Validation up to the check of [withRequest]: with an object for
    [withRequest], and in contract mode the three contract fields, the outcome
    is the outcome of the checks that follow. *)
Lemma validateInteraction_request rawInteraction mock w withRequest :
  get (mem w) rawInteraction "withRequest" = Ok withRequest →
  withRequest ≠ VUndefined →
  typeof withRequest = "object" →
  (mock = true ∨ contract_fields (mem w) rawInteraction) →
  ∃ willRespondWith,
    get (mem w) rawInteraction "willRespondWith" = Ok willRespondWith
    ∧ validateInteraction rawInteraction mock w
      = (let! method := read (λ h, get h withRequest "method") in
         run when (not_text method)
               (throw_template PactumInteractionError
                  "Invalid interaction request method provided - " method) in
         run when (negb (has ALLOWED_REQUEST_METHODS method))
               (throw_template PactumInteractionError
                  "Invalid interaction request method provided - " method) in
         let! path := read (λ h, get h withRequest "path") in
         run when (not_text path)
               (throw_template PactumInteractionError
                  "Invalid interaction request path provided - " path) in
         run when (negb mock)
               (let! ignoreQuery := read (λ h, get h withRequest "ignoreQuery") in
                run when (truthy ignoreQuery)
                      (throw (PactumInteractionError
                                "Pact interaction won't support ignore query")) in
                let! ignoreBody := read (λ h, get h withRequest "ignoreBody") in
                when (truthy ignoreBody)
                  (throw (PactumInteractionError
                            "Pact interaction won't support ignore body"))) in
         run when (negb (String.eqb (typeof willRespondWith) "object"))
               (throw_template PactumInteractionError
                  "Invalid interaction request provided - " willRespondWith) in
         let! status := read (λ h, get h willRespondWith "status") in
         when (negb (String.eqb (typeof status) "number"))
           (throw_template PactumInteractionError
              "Invalid interaction response status provided - " status)) w.
Proof.
  intros Hwr Hdef Hobj Hmode.
  destruct (get_defined _ _ _ _ "willRespondWith" Hwr) as [ww Hww].
  destruct (get_defined _ _ _ _ "provider" Hwr) as [p Hp].
  destruct (get_defined _ _ _ _ "state" Hwr) as [s Hs].
  destruct (get_defined _ _ _ _ "uponReceiving" Hwr) as [u Hu].
  exists ww. split; [exact Hww|].
  unfold validateInteraction.
  rewrite (get_object _ _ _ _ Hwr Hdef).
  cbn [String.eqb Ascii.eqb Bool.eqb negb]. rewrite bind_when_false.
  rewrite (bind_read _ _ _ _ Hp), (bind_read _ _ _ _ Hs), (bind_read _ _ _ _ Hu),
    (bind_read _ _ _ _ Hwr), (bind_read _ _ _ _ Hww).
  assert (Hfields : ∀ B (k : unit → M B),
    bind (when (negb mock)
            (run when (not_text p)
                   (throw_template PactumInteractionError
                      "Invalid provider name provided - " p) in
             run when (not_text s)
                   (throw_template PactumInteractionError "Invalid state provided - " s) in
             when (not_text u)
               (throw_template PactumInteractionError
                  "Invalid upon receiving description provided - " u))) k w
    = k tt w).
  { intros B k.
    destruct Hmode as [-> | (p' & s' & u' & Hp' & Hpt & Hs' & Hst & Hu' & Hut)];
      [reflexivity|].
    rewrite Hp in Hp'. rewrite Hs in Hs'. rewrite Hu in Hu'.
    injection Hp' as <-. injection Hs' as <-. injection Hu' as <-.
    destruct mock; [reflexivity|].
    rewrite Hpt, Hst, Hut. reflexivity. }
  rewrite Hfields, Hobj.
  cbn [String.eqb Ascii.eqb Bool.eqb negb]. rewrite bind_when_false. reflexivity.
Qed.

Lemma when_false_inv (m : M unit) w (r : result unit) w' :
  when false m w = (r, w') → r = Ok tt ∧ w' = w.
Proof. unfold when, ret. intros [= <- <-]. auto. Qed.

(** Validation that returns has found the raw interaction valid, and has left
    everything as it was. *)
Lemma validateInteraction_Ok_valid rawInteraction mock w u w' :
  validateInteraction rawInteraction mock w = (Ok u, w') →
  w' = w ∧ valid_interaction (mem w) rawInteraction mock.
Proof.
  unfold validateInteraction. intros Hv.
  apply bind_Ok_inv in Hv as (? & ? & Hc & Hv). apply when_throw_Ok_inv in Hc as [_ ->].
  apply bind_Ok_inv in Hv as (p & ? & Hp & Hv). apply read_inv in Hp as [Hp ->].
  apply bind_Ok_inv in Hv as (s & ? & Hs & Hv). apply read_inv in Hs as [Hs ->].
  apply bind_Ok_inv in Hv as (ur & ? & Hur & Hv). apply read_inv in Hur as [Hur ->].
  apply bind_Ok_inv in Hv as (wr & ? & Hwr & Hv). apply read_inv in Hwr as [Hwr ->].
  apply bind_Ok_inv in Hv as (ww & ? & Hww & Hv). apply read_inv in Hww as [Hww ->].
  apply bind_Ok_inv in Hv as (? & w1 & Hfields & Hv).
  assert (Hf : w1 = w ∧ (mock = false → contract_fields (mem w) rawInteraction)).
  { destruct mock; cbn [negb] in Hfields.
    - apply when_false_inv in Hfields as [_ ->]. split; [reflexivity | discriminate].
    - rewrite (bind_when_true _ (λ _, ret tt)) in Hfields || idtac.
      change (when true ?m) with m in Hfields.
      apply bind_Ok_inv in Hfields as (? & ? & H1 & Hfields).
      apply when_template_Ok_inv in H1 as [H1 ->].
      apply bind_Ok_inv in Hfields as (? & ? & H2 & Hfields).
      apply when_template_Ok_inv in H2 as [H2 ->].
      apply when_template_Ok_inv in Hfields as [H3 ->].
      split; [reflexivity|]. intros _. exists p, s, ur. auto 10. }
  destruct Hf as [-> Hcf].
  apply bind_Ok_inv in Hv as (? & ? & Hc & Hv). apply when_template_Ok_inv in Hc as [_ ->].
  apply bind_Ok_inv in Hv as (m & ? & Hm & Hv). apply read_inv in Hm as [Hm ->].
  apply bind_Ok_inv in Hv as (? & ? & Hc & Hv). apply when_template_Ok_inv in Hc as [Hmt ->].
  apply bind_Ok_inv in Hv as (? & ? & Hc & Hv). apply when_template_Ok_inv in Hc as [Hma ->].
  apply bind_Ok_inv in Hv as (pa & ? & Hpa & Hv). apply read_inv in Hpa as [Hpa ->].
  apply bind_Ok_inv in Hv as (? & ? & Hc & Hv). apply when_template_Ok_inv in Hc as [Hpt ->].
  apply bind_Ok_inv in Hv as (? & w2 & Hflags & Hv).
  assert (Hf : w2 = w ∧ (mock = false → contract_flags (mem w) wr)).
  { destruct mock; cbn [negb] in Hflags.
    - apply when_false_inv in Hflags as [_ ->]. split; [reflexivity | discriminate].
    - change (when true ?m) with m in Hflags.
      apply bind_Ok_inv in Hflags as (iq & ? & Hiq & Hflags). apply read_inv in Hiq as [Hiq ->].
      apply bind_Ok_inv in Hflags as (? & ? & H1 & Hflags).
      apply when_throw_Ok_inv in H1 as [H1 ->].
      apply bind_Ok_inv in Hflags as (ib & ? & Hib & Hflags). apply read_inv in Hib as [Hib ->].
      apply when_throw_Ok_inv in Hflags as [H2 ->].
      split; [reflexivity|]. intros _. exists iq, ib. auto. }
  destruct Hf as [-> Hfl].
  apply bind_Ok_inv in Hv as (? & ? & Hc & Hv). apply when_template_Ok_inv in Hc as [_ ->].
  apply bind_Ok_inv in Hv as (st & ? & Hst & Hv). apply read_inv in Hst as [Hst ->].
  apply when_template_Ok_inv in Hv as [Hnum ->].
  split; [reflexivity|].
  exists wr, ww, m, pa, st. repeat split; try assumption.
  - apply negb_false_iff in Hma. exact Hma.
  - apply negb_false_iff, String.eqb_eq in Hnum. exact Hnum.
  - apply Hcf. assumption.
  - apply Hfl. assumption.
Qed.

(** A valid raw interaction passes validation, which leaves everything as it
    was. *)
Lemma valid_validateInteraction_Ok rawInteraction mock w :
  valid_interaction (mem w) rawInteraction mock →
  validateInteraction rawInteraction mock w = (Ok tt, w).
Proof.
  intros (wr & ww & m & p & s & Hwr & Hww & Hm & Hmt & Hma & Hp & Hpt & Hs & Hst
          & Hcontract).
  assert (Hdef : m ≠ VUndefined) by (intros ->; discriminate).
  assert (Hobj : typeof wr = "object") by exact (get_object _ _ _ _ Hm Hdef).
  assert (Hwdef : wr ≠ VUndefined) by (intros ->; discriminate).
  assert (Hmode : mock = true ∨ contract_fields (mem w) rawInteraction).
  { destruct mock; [left; reflexivity | right; apply Hcontract; reflexivity]. }
  destruct (validateInteraction_request _ _ _ _ Hwr Hwdef Hobj Hmode)
    as (ww' & Hww' & ->).
  rewrite Hww in Hww'. injection Hww' as <-.
  rewrite (bind_read _ _ _ _ Hm), Hmt, bind_when_false, Hma.
  cbn [negb]. rewrite bind_when_false, (bind_read _ _ _ _ Hp), Hpt, bind_when_false.
  assert (Hwobj : typeof ww = "object").
  { apply (get_object _ _ _ _ Hs). intros ->. discriminate. }
  assert (Hflags : ∀ B (k : unit → M B),
    bind (when (negb mock)
            (let! ignoreQuery := read (λ h, get h wr "ignoreQuery") in
             run when (truthy ignoreQuery)
                   (throw (PactumInteractionError
                             "Pact interaction won't support ignore query")) in
             let! ignoreBody := read (λ h, get h wr "ignoreBody") in
             when (truthy ignoreBody)
               (throw (PactumInteractionError
                         "Pact interaction won't support ignore body")))) k w
    = k tt w).
  { intros B k. destruct mock; [reflexivity|].
    destruct (Hcontract eq_refl) as [_ (iq & ib & Hiq & Hiqf & Hib & Hibf)].
    cbn [negb]. rewrite bind_when_true.
    unfold bind at 1. rewrite (bind_read _ _ _ _ Hiq), Hiqf, bind_when_false.
    rewrite (bind_read _ _ _ _ Hib), Hibf. reflexivity. }
  rewrite Hflags, Hwobj.
  cbn [String.eqb Ascii.eqb Bool.eqb negb]. rewrite bind_when_false.
  rewrite (bind_read _ _ _ _ Hs), Hst. reflexivity.
Qed.

(** The constructor succeeds only on a raw interaction that is valid. *)
Lemma new_Interaction_valid rawInteraction mock w i w' :
  new_Interaction rawInteraction mock w = (Ok i, w') →
  valid_interaction (mem w) rawInteraction mock.
Proof.
  unfold new_Interaction. intros Hi. apply bind_Ok_inv in Hi as (u & w1 & Hv & _).
  apply validateInteraction_Ok_valid in Hv as [_ Hv]. exact Hv.
Qed.

End Validation.

(** Takes apart [H : new_Interaction ... w = (Ok _, _)] at the validation. *)
Ltac step_validation H :=
  let u := fresh "u" in
  let w1 := fresh "w" in
  let Hv := fresh "Hv" in
  apply bind_Ok_inv in H as (u & w1 & Hv & H);
  apply validateInteraction_Ok_valid in Hv as [-> Hv].

(** ** Defaults assigned by the [Interaction] constructor *)

Section Defaults.
Context `{Externals}.

Lemma set_mem_id w : set_mem (mem w) w = w.
Proof. destruct w; reflexivity. Qed.

(** Copying through JSON writes to the heap only. *)
Lemma json_copy_frame v w r w' :
  json_copy v w = (r, w') → w' = set_mem (mem w') w.
Proof.
  unfold json_copy. destruct (JSON_stringify (mem w) v) as [[[j|]|e] h1].
  - destruct (JSON_parse j h1) as [v' h']. intros [= <- <-]. reflexivity.
  - intros [= <- <-]. reflexivity.
  - intros [= <- <-]. reflexivity.
Qed.

(** Constructing the response descriptor writes to the heap only. *)
Lemma new_InteractionResponse_frame response w r w' :
  new_InteractionResponse response w = (r, w') → w' = set_mem (mem w') w.
Proof.
  unfold new_InteractionResponse, bind, read, ret, call_setValueFromMatcher.
  destruct (get (mem w) response "status"); [|intros [= <- <-]; symmetry; apply set_mem_id].
  destruct (get (mem w) response "headers"); [|intros [= <- <-]; symmetry; apply set_mem_id].
  destruct (get (mem w) response "body") as [b|]; [|intros [= <- <-]; symmetry; apply set_mem_id].
  destruct (truthy b && String.eqb (typeof b) "object").
  - destruct (json_copy b w) as [[rb|e] w1] eqn:Hc; apply json_copy_frame in Hc.
    + destruct (setValueFromMatcher (mem w1) b) as [v' h']. intros [= <- <-].
      rewrite Hc. reflexivity.
    + intros [= <- <-]. exact Hc.
  - destruct (setValueFromMatcher (mem w) b) as [v' h']. intros [= <- <-]. reflexivity.
Qed.

(** C8: on a constructed [Interaction], a falsy [id] of the raw interaction
    is replaced by the identifier [helper.getRandomId()] returns (one more
    identifier is drawn), a falsy [port] by [config.mock.port] and a falsy
    [consumer] by [config.pact.consumer]; a truthy value is kept. *)
Theorem new_Interaction_defaults rawInteraction mock w i w' :
  new_Interaction rawInteraction mock w = (Ok i, w') →
  ∃ id port consumer,
    get (mem w) rawInteraction "id" = Ok id
    ∧ get (mem w) rawInteraction "port" = Ok port
    ∧ get (mem w) rawInteraction "consumer" = Ok consumer
    ∧ Interaction.id i
      = (if truthy id then id else VStr (getRandomId (random_ids w)))
    ∧ random_ids w' = (if truthy id then random_ids w else S (random_ids w))
    ∧ Interaction.port i = (if truthy port then port else config_mock_port w)
    ∧ Interaction.consumer i
      = (if truthy consumer then consumer else config_pact_consumer w).
Proof.
  unfold new_Interaction. intros Hi.
  step_validation Hi.
  apply bind_Ok_inv in Hi as (id & ? & Hid & Hi). apply read_inv in Hid as [Hid ->].
  apply bind_Ok_inv in Hi as (port & ? & Hport & Hi). apply read_inv in Hport as [Hport ->].
  apply bind_Ok_inv in Hi as (cons & ? & Hcons & Hi). apply read_inv in Hcons as [Hcons ->].
  do 5 step_read Hi.
  apply bind_Ok_inv in Hi as (id' & w1 & Hgen & Hi).
  apply bind_Ok_inv in Hi as (port' & w2 & Hp' & Hi).
  apply bind_Ok_inv in Hi as (cons' & w3 & Hc' & Hi).
  step_read Hi.
  apply bind_Ok_inv in Hi as (resp & w4 & Hresp & Hi).
  injection Hi as <- <-. simpl.
  injection Hp' as <- <-. injection Hc' as <- <-.
  apply new_InteractionResponse_frame in Hresp. rewrite Hresp. simpl.
  exists id, port, cons. repeat split; try assumption.
  - unfold or_else_call, ret, call_getRandomId in Hgen.
    destruct (truthy id); injection Hgen as <- <-; reflexivity.
  - unfold or_else_call, ret, call_getRandomId in Hgen.
    destruct (truthy id); injection Hgen as <- <-; reflexivity.
  - unfold or_else_call, ret, call_getRandomId in Hgen. unfold or_else.
    destruct (truthy id); injection Hgen as <- <-; reflexivity.
  - unfold or_else_call, ret, call_getRandomId in Hgen. unfold or_else.
    destruct (truthy id); injection Hgen as <- <-; reflexivity.
Qed.

End Defaults.

Lemma new_Interaction_defaults_witness :
  ∃ i w', @new_Interaction sample_externals (VRef 1) true (world_of heap_falsy) = (Ok i, w')
    ∧ Interaction.id i = VStr "id0"
    ∧ Interaction.port i = VNum (NInt 9393)
    ∧ Interaction.consumer i = VStr "consumer".
Proof.
  destruct (@new_Interaction sample_externals (VRef 1) true (world_of heap_falsy))
    as [[i|e] w'] eqn:Hrun; [|vm_compute in Hrun; discriminate].
  exists i, w'. split; [reflexivity|].
  destruct (@new_Interaction_defaults sample_externals _ _ _ _ _ Hrun)
    as (id & port & consumer & Hid & Hport & Hcons & Hi & _ & Hp & Hc).
  vm_compute in Hid, Hport, Hcons.
  injection Hid as <-. injection Hport as <-. injection Hcons as <-.
  rewrite Hi, Hp, Hc. repeat split; reflexivity.
Defined.

(** ** Argument checks of the control plane *)

Section PortChecks.
Context `{Externals}.

Lemma is_number_false port : typeof port ≠ "number" → Mock.is_number port = false.
Proof.
  unfold Mock.is_number. intros Hty.
  destruct (String.eqb_spec (typeof port) "number"); [contradiction | reflexivity].
Qed.

(** What the error built from a template literal is: the Pactum error with
    the interpolated text when the conversion returns, and what the conversion
    raises otherwise. *)
Lemma configuration_error_Ok prefix h v s :
  (ToString h v).1 = Ok s →
  configuration_error prefix h v = PactumConfigurationError (prefix +:+ s).
Proof. unfold configuration_error, template_error. intros ->. reflexivity. Qed.

Lemma interaction_error_Ok prefix h v s :
  (ToString h v).1 = Ok s →
  interaction_error prefix h v = PactumInteractionError (prefix +:+ s).
Proof. unfold interaction_error, template_error. intros ->. reflexivity. Qed.

(** A value that is not an object always has a text, and its conversion runs
    no code of the caller. *)
Lemma ToString_not_object h v :
  typeof v ≠ "object" ∨ v = VNull → ∃ s, ToString h v = (Ok s, h).
Proof.
  intros [Hty| ->]; [|eexists; reflexivity].
  destruct v as [| |[|]| | | |l]; try (eexists; reflexivity).
  exfalso; apply Hty; reflexivity.
Qed.

(** The conversion changes the heap only through a function of the caller. *)
Lemma ToString_same h v :
  to_text (S (size h)) [] h v ≠ CallerCode → (ToString h v).2 = h.
Proof.
  unfold ToString. destruct (to_text _ _ _ _); try reflexivity. contradiction.
Qed.




(** What a call on the server leaves behind. *)
Lemma call_server_run c w :
  Mock.call_server c w
  = (of_reply (server_reply (server w) c),
     World (mem w) (config_mock_port w) (config_pact_consumer w) (random_ids w)
       (server w ++ [c]) (interactions w) (store w)).
Proof. reflexivity. Qed.

(** C10: [removeDefaultInteractions] checks nothing: whatever its argument,
    it makes one [removeDefaultInteractions] call on the injected server, with
    the argument (or [config.mock.port] when the argument is [undefined]); it
    returns when the server does, and raises nothing of its own, no
    [PactumConfigurationError] in particular: what it raises, if anything, is
    what the server raises.  The sibling methods reject a port that is
    supplied and is not a number: they throw and make no call on the server
    ([setDefaultPort], which has no default, also rejects [undefined]).  What
    they throw is the [PactumConfigurationError] carrying the text of the
    port whenever the port has a text, as every value that is not an object
    has; and they leave everything as it was, but for what a conversion
    function of the port, when the port is an object that has one, does to
    the heap. *)
Theorem removeDefaultInteractions_unchecked :
  (∀ port w,
     let p := match port with VUndefined => config_mock_port w | _ => port end in
     Mock.removeDefaultInteractions port w
     = (of_reply (server_reply (server w) (Server.removeDefaultInteractions p)),
        World (mem w) (config_mock_port w) (config_pact_consumer w) (random_ids w)
          (server w ++ [Server.removeDefaultInteractions p])
          (interactions w) (store w)))
  ∧ (∀ port w r w',
       Mock.removeDefaultInteractions port w = (r, w') →
       let p := match port with VUndefined => config_mock_port w | _ => port end in
       r = Ok tt
       ∨ ∃ what, server_reply (server w) (Server.removeDefaultInteractions p) = Raises what
                 ∧ r = Throw (Other what))
  ∧ (∀ port w, typeof port ≠ "number" →
       Mock.setDefaultPort port w
       = (Throw (configuration_error "Invalid default port number - " (mem w) port),
          set_mem (ToString (mem w) port).2 w))
  ∧ (∀ port w, typeof port ≠ "number" → port ≠ VUndefined →
       Mock.start port w
       = (Throw (configuration_error
                   "Invalid port number given to start the mock server - " (mem w) port),
          set_mem (ToString (mem w) port).2 w)
       ∧ Mock.stop port w
         = (Throw (configuration_error
                     "Invalid port number given to stop the mock server - " (mem w) port),
            set_mem (ToString (mem w) port).2 w)
       ∧ ∀ interactionId, ∃ e h,
           Mock.removeDefaultInteraction interactionId port w = (Throw e, set_mem h w))
  ∧ (∀ prefix h port s,
       (ToString h port).1 = Ok s →
       configuration_error prefix h port = PactumConfigurationError (prefix +:+ s))
  ∧ (∀ h port, typeof port ≠ "object" ∨ port = VNull → ∃ s, ToString h port = (Ok s, h))
  ∧ (∀ w, set_mem (mem w) w = w).
Proof.
  split; [|split; [|split; [|split; [|split; [|split]]]]].
  - intros port w. reflexivity.
  - intros port w r w'. unfold Mock.removeDefaultInteractions, bind, Mock.default_port.
    rewrite call_server_run. intros [= <- _]. simpl.
    destruct (server_reply _ _) as [[]|what]; [left; reflexivity | right; eauto].
  - intros port w Hty. unfold Mock.setDefaultPort.
    rewrite (is_number_false _ Hty). reflexivity.
  - intros port w Hty Hdef.
    assert (Hp : Mock.default_port port w = (Ok port, w))
      by (destruct port; try reflexivity; contradiction).
    split; [|split].
    + unfold Mock.start. rewrite (bind_Ok _ _ _ _ _ Hp).
      rewrite (is_number_false _ Hty). reflexivity.
    + unfold Mock.stop. rewrite (bind_Ok _ _ _ _ _ Hp).
      rewrite (is_number_false _ Hty). reflexivity.
    + intros interactionId. unfold Mock.removeDefaultInteraction.
      rewrite (bind_Ok _ _ _ _ _ Hp). rewrite (is_number_false _ Hty).
      destruct (not_text interactionId); do 2 eexists; reflexivity.
  - intros prefix h port s. apply configuration_error_Ok.
  - intros h port. apply ToString_not_object.
  - intros w. apply set_mem_id.
Qed.

End PortChecks.

Lemma removeDefaultInteractions_unchecked_witness :
  @Mock.removeDefaultInteractions sample_externals (VStr "9393") (world_of ∅)
  = (Ok tt, World ∅ (VNum (NInt 9393)) (VStr "consumer") 0
              [Server.removeDefaultInteractions (VStr "9393")] ∅ [])
  ∧ @Mock.start sample_externals (VStr "9393") (world_of ∅)
    = (Throw (PactumConfigurationError
                "Invalid port number given to start the mock server - 9393"),
       world_of ∅)
  ∧ @Mock.setDefaultPort sample_externals (VRef 1) (world_of heap_no_text)
    = (Throw TypeError, world_of heap_no_text).
Proof.
  destruct (@removeDefaultInteractions_unchecked sample_externals)
    as (Hall & _ & Hset & Hsib & _).
  split; [|split].
  - exact (Hall (VStr "9393") (world_of ∅)).
  - refine (proj1 (Hsib (VStr "9393") (world_of ∅) _ _)); discriminate.
  - refine (Hset (VRef 1) _ _). discriminate.
Defined.


(** ** Request methods *)

Section Methods.
Context `{Externals}.

(** C7, as the code has it: a raw interaction whose [withRequest.method] is a
    string outside [ALLOWED_REQUEST_METHODS] (an exact, case-sensitive
    comparison; the empty string included) is rejected with the request-method
    error, in mock mode always and in contract mode when [provider], [state]
    and [uponReceiving], which are checked first, are non-empty text. *)
Theorem method_outside_set_rejected rawInteraction mock w withRequest m :
  get (mem w) rawInteraction "withRequest" = Ok withRequest →
  get (mem w) withRequest "method" = Ok (VStr m) →
  m ∉ ALLOWED_REQUEST_METHODS →
  (mock = true ∨ contract_fields (mem w) rawInteraction) →
  new_Interaction rawInteraction mock w
  = (Throw (PactumInteractionError
              ("Invalid interaction request method provided - " +:+ m)), w).
Proof.
  intros Hwr Hm Hout Hmode. apply new_Interaction_invalid.
  assert (Hobj : typeof withRequest = "object")
    by (apply (get_object _ _ _ _ Hm); discriminate).
  assert (Hdef : withRequest ≠ VUndefined) by (intros ->; discriminate).
  destruct (validateInteraction_request _ _ _ _ Hwr Hdef Hobj Hmode) as (ww & _ & ->).
  rewrite (bind_read _ _ _ _ Hm).
  destruct (not_text (VStr m)); [destruct w; reflexivity|].
  rewrite bind_when_false. cbn [has]. rewrite (bool_decide_eq_false_2 _ Hout).
  destruct w; reflexivity.
Qed.

End Methods.

Lemma lowercase_get_not_allowed : "get" ∉ ALLOWED_REQUEST_METHODS.
Proof. apply (bool_decide_eq_false_1 _). vm_compute. reflexivity. Qed.

Lemma method_outside_set_rejected_witness :
  @new_Interaction sample_externals (VRef 1) true (world_of heap_lowercase_method)
  = (Throw (PactumInteractionError "Invalid interaction request method provided - get"),
     world_of heap_lowercase_method).
Proof.
  apply (@method_outside_set_rejected sample_externals (VRef 1) true
           (world_of heap_lowercase_method) (VRef 2) "get").
  - reflexivity.
  - reflexivity.
  - exact lowercase_get_not_allowed.
  - left. reflexivity.
Defined.

(** C7 as stated fails in contract mode: the method is a string outside the
    set, yet construction fails with the provider error, which is checked
    first. *)
Lemma method_outside_set_contract_counterexample :
  get heap_lowercase_method (VRef 1) "withRequest" = Ok (VRef 2)
  ∧ get heap_lowercase_method (VRef 2) "method" = Ok (VStr "get")
  ∧ ("get" ∉ ALLOWED_REQUEST_METHODS)
  ∧ @new_Interaction sample_externals (VRef 1) false (world_of heap_lowercase_method)
    = (Throw (PactumInteractionError "Invalid provider name provided - undefined"),
       world_of heap_lowercase_method)
  ∧ (@new_Interaction sample_externals (VRef 1) false (world_of heap_lowercase_method)
     ≠ (Throw (PactumInteractionError "Invalid interaction request method provided - get"),
        world_of heap_lowercase_method)).
Proof.
  split; [reflexivity|]. split; [reflexivity|].
  split; [exact lowercase_get_not_allowed|].
  split; [vm_compute; reflexivity|]. vm_compute. discriminate.
Qed.

(** ** When construction returns *)

Section Totality.
Context `{Externals}.

Lemma new_InteractionRequest_total h request k v :
  get h request k = Ok v → ∃ r, new_InteractionRequest h request = Ok r.
Proof.
  unfold new_InteractionRequest.
  destruct request; simpl; try discriminate; intros _; try (eexists; reflexivity).
  destruct (h !! l) as [[fs|es]|]; eexists; reflexivity.
Qed.

Lemma new_InteractionResponse_total response w k v :
  get (mem w) response k = Ok v →
  (∀ body, get (mem w) response "body" = Ok body → copyable (mem w) body) →
  ∃ r w', new_InteractionResponse response w = (Ok r, w').
Proof.
  intros Hk Hcopy.
  destruct (get_defined _ _ _ _ "status" Hk) as [s Hs].
  destruct (get_defined _ _ _ _ "headers" Hk) as [hd Hhd].
  destruct (get_defined _ _ _ _ "body" Hk) as [b Hb].
  unfold new_InteractionResponse, bind, read. rewrite Hs, Hhd, Hb.
  destruct (Hcopy b Hb) as [-> | (j & h1 & Hj)].
  - unfold ret, call_setValueFromMatcher.
    destruct (setValueFromMatcher (mem w) b). eauto.
  - destruct (truthy b && String.eqb (typeof b) "object").
    + unfold json_copy. rewrite Hj. destruct (JSON_parse j h1) as [v' h'].
      unfold ret, call_setValueFromMatcher.
      destruct (setValueFromMatcher (mem (set_mem h' w)) b). eauto.
    + unfold ret, call_setValueFromMatcher.
      destruct (setValueFromMatcher (mem w) b). eauto.
Qed.

(** A raw interaction that passes validation and whose response body can be
    copied is constructed. *)
Lemma new_Interaction_total rawInteraction mock w :
  valid_interaction (mem w) rawInteraction mock →
  (∀ willRespondWith body,
     get (mem w) rawInteraction "willRespondWith" = Ok willRespondWith →
     get (mem w) willRespondWith "body" = Ok body → copyable (mem w) body) →
  ∃ i w', new_Interaction rawInteraction mock w = (Ok i, w').
Proof.
  intros Hvalid Hcopy.
  pose proof (valid_validateInteraction_Ok _ _ _ Hvalid) as Hv.
  destruct Hvalid as (wr & ww & m & p & s & Hwr & Hww & Hm & _ & _ & _ & _ & Hs & _).
  destruct (get_defined _ _ _ _ "id" Hwr) as [id Hid].
  destruct (get_defined _ _ _ _ "port" Hwr) as [port Hport].
  destruct (get_defined _ _ _ _ "consumer" Hwr) as [cons Hcons].
  destruct (get_defined _ _ _ _ "provider" Hwr) as [prov Hprov].
  destruct (get_defined _ _ _ _ "state" Hwr) as [st Hst].
  destruct (get_defined _ _ _ _ "uponReceiving" Hwr) as [ur Hur].
  destruct (new_InteractionRequest_total _ _ _ _ Hm) as [req Hreq].
  unfold new_Interaction. rewrite (bind_Ok _ _ _ _ _ Hv). unfold bind, read.
  rewrite Hid, Hport, Hcons, Hprov, Hst, Hur, Hwr, Hww.
  assert (Hgen : ∃ id' w1, or_else_call id call_getRandomId w = (Ok id', w1)
                           ∧ mem w1 = mem w).
  { unfold or_else_call, ret, call_getRandomId. destruct (truthy id); eauto. }
  destruct Hgen as (id' & w1 & -> & Hmem). rewrite Hmem, Hreq.
  destruct (new_InteractionResponse_total ww w1 "status" s) as (resp & w2 & ->).
  - rewrite Hmem. exact Hs.
  - rewrite Hmem. intros body. apply Hcopy. exact Hww.
  - unfold ret. eauto.
Qed.

End Totality.

(** ** Which errors construction can raise *)

Section Errors.
Context `{Externals}.



Lemma serialize_items_Fails f es e :
  (∀ v e', f v = Fails e' → e' = TypeError) →
  serialize_items f es = Fails e → e = TypeError.
Proof.
  intros Hf. induction es as [|v es IH]; simpl; [discriminate|].
  destruct (f v) eqn:Hv; simpl; [|intros [= <-]; eauto|discriminate].
  destruct (serialize_items f es); simpl; [discriminate| |discriminate].
  intros [= <-]. auto.
Qed.

Lemma serialize_members_Fails f fs e :
  (∀ v e', f v = Fails e' → e' = TypeError) →
  serialize_members f fs = Fails e → e = TypeError.
Proof.
  intros Hf. induction fs as [|[k v] fs IH]; simpl; [discriminate|].
  destruct (f v) eqn:Hv; simpl; [|intros [= <-]; eauto|discriminate].
  destruct (serialize_members f fs); simpl; [discriminate| |discriminate].
  intros [= <-]. auto.
Qed.

(** The walk fails with a [TypeError] only. *)
Lemma serialize_Fails fuel stack h v e :
  serialize fuel stack h v = Fails e → e = TypeError.
Proof.
  revert stack v e. induction fuel as [|fuel IH]; intros stack v e;
    destruct v; simpl; try discriminate.
  - destruct (h !! l) as [c|]; [|discriminate].
    destruct (has_toJSON c); [discriminate|]. case_bool_decide; congruence.
  - destruct (h !! l) as [c|]; [|discriminate].
    destruct (has_toJSON c); [discriminate|]. case_bool_decide; [congruence|].
    destruct c as [fs|es].
    + destruct (serialize_members _ fs) eqn:Hms; simpl; [discriminate| |discriminate].
      intros [= <-]. eapply serialize_members_Fails; [|exact Hms]. intros; eauto.
    + destruct (serialize_items _ es) eqn:Hjs; simpl; [discriminate| |discriminate].
      intros [= <-]. eapply serialize_items_Fails; [|exact Hjs]. intros; eauto.
Qed.








End Errors.

(** ** JSON values in the heap *)

(** Induction on a JSON value, with the hypothesis for every item of an array
    and every member of an object. *)
Lemma json_nested_ind (P : json → Prop) :
  P JNull →
  (∀ b, P (JBool b)) →
  (∀ z, P (JNum z)) →
  (∀ s, P (JStr s)) →
  (∀ js, Forall P js → P (JArr js)) →
  (∀ ms, Forall (λ kj, P kj.2) ms → P (JObj ms)) →
  ∀ j, P j.
Proof.
  intros Hnull Hbool Hnum Hstr Harr Hobj.
  fix IH 1. intros [| b | z | s | js | ms].
  - exact Hnull.
  - apply Hbool.
  - apply Hnum.
  - apply Hstr.
  - apply Harr. induction js as [|j js IHjs]; constructor; [apply IH | exact IHjs].
  - apply Hobj. induction ms as [|[k j] ms IHms]; constructor; [apply IH | exact IHms].
Qed.

Lemma JSON_parse_array js h :
  JSON_parse (JArr js) h
  = (let '(vs, h1) := parse_items js h in
     (VRef (fresh (dom h1)), <[fresh (dom h1) := CArr vs]> h1)).
Proof.
  simpl.
  assert (Heq : ∀ js h,
    (fix items (js : list json) (h : heap) : list value * heap :=
       match js with
       | [] => ([], h)
       | j :: js' =>
           let '(v, h1) := JSON_parse j h in
           let '(vs, h2) := items js' h1 in
           (v :: vs, h2)
       end) js h = parse_items js h).
  { clear. induction js as [|j js IH]; intros h; [reflexivity|].
    simpl. destruct (JSON_parse j h) as [v h1]. rewrite IH. reflexivity. }
  rewrite Heq. reflexivity.
Qed.

Lemma JSON_parse_object ms h :
  JSON_parse (JObj ms) h
  = (let '(fs, h1) := parse_members ms h in
     (VRef (fresh (dom h1)), <[fresh (dom h1) := CObj fs]> h1)).
Proof.
  simpl.
  assert (Heq : ∀ ms h,
    (fix members (ms : list (string * json)) (h : heap)
       : list (string * value) * heap :=
       match ms with
       | [] => ([], h)
       | (k, j) :: ms' =>
           let '(v, h1) := JSON_parse j h in
           let '(fs, h2) := members ms' h1 in
           ((k, v) :: fs, h2)
       end) ms h = parse_members ms h).
  { clear. induction ms as [|[k j] ms IH]; intros h; [reflexivity|].
    simpl. destruct (JSON_parse j h) as [v h1]. rewrite IH. reflexivity. }
  rewrite Heq. reflexivity.
Qed.

(** A snapshot does not depend on the depth once the depth suffices. *)
Lemma snapshot_mono d h v t :
  snapshot d h v = Some t → ∀ d', (d ≤ d')%nat → snapshot d' h v = Some t.
Proof.
  revert v t. induction d as [|d IH]; intros v t Hs d' Hle.
  - destruct v; try discriminate; destruct d'; exact Hs.
  - destruct d' as [|d']; [lia|].
    destruct v; try exact Hs. simpl in *.
    destruct (h !! l) as [[fs|es]|]; [| |discriminate].
    + destruct (mapM _ fs) as [ts|] eqn:Hm; [|discriminate].
      apply mapM_Some in Hm.
      erewrite (proj2 (mapM_Some _ fs ts)); [exact Hs|].
      eapply Forall2_impl; [exact Hm|]. intros [k v] kt Hk. simpl in *.
      destruct (snapshot d h v) as [t'|] eqn:Hv; [|discriminate].
      rewrite (IH _ _ Hv d') by lia. exact Hk.
    + destruct (mapM _ es) as [ts|] eqn:Hm; [|discriminate].
      apply mapM_Some in Hm.
      erewrite (proj2 (mapM_Some _ es ts)); [exact Hs|].
      eapply Forall2_impl; [exact Hm|]. intros v t' Hv. apply (IH _ _ Hv). lia.
Qed.

Lemma keeps_new_weaken h h1 h1' h2 :
  h1 ⊆ h1' → keeps_new h h1' h2 → keeps_new h h1 h2.
Proof.
  intros Hsub Hk l c Hl Hn. apply Hk; [|exact Hn]. eapply lookup_weaken; eassumption.
Qed.

Lemma keeps_new_later h h1 h1' h2 :
  h ⊆ h1 → keeps_new h h1' h2 → keeps_new h1 h1' h2.
Proof.
  intros Hsub Hk l c Hl Hn. apply Hk; [exact Hl|].
  destruct (h !! l) as [c'|] eqn:Hh; [|reflexivity].
  rewrite (lookup_weaken _ _ _ _ Hh Hsub) in Hn. discriminate.
Qed.

Lemma parse_items_ok js :
  Forall parse_ok js →
  ∀ h vs h', parse_items js h = (vs, h') →
    h ⊆ h'
    ∧ ∀ h2 d, keeps_new h h' h2 →
        (foldr (λ j d, max (json_depth j) d) 0 js ≤ d)%nat →
        mapM (snapshot d h2) vs = Some (map json_tree js).
Proof.
  induction 1 as [|j js Hj _ IH]; intros h vs h'; simpl.
  - intros [= <- <-]. split; [reflexivity|]. intros; reflexivity.
  - destruct (JSON_parse j h) as [v h1] eqn:Hp.
    destruct (parse_items js h1) as [vs' h2'] eqn:Hps. intros [= <- <-].
    destruct (Hj _ _ _ Hp) as [Hsub1 Hsnap1].
    destruct (IH _ _ _ Hps) as [Hsub2 Hsnap2].
    split; [etrans; eassumption|].
    intros h2 d Hk Hd. simpl.
    rewrite (Hsnap1 h2 d);
      [|eauto using keeps_new_weaken|exact (Nat.max_lub_l _ _ _ Hd)]. simpl.
    rewrite (Hsnap2 h2 d);
      [|eauto using keeps_new_later|exact (Nat.max_lub_r _ _ _ Hd)]. reflexivity.
Qed.

Lemma parse_members_ok ms :
  Forall (λ kj, parse_ok kj.2) ms →
  ∀ h fs h', parse_members ms h = (fs, h') →
    h ⊆ h'
    ∧ ∀ h2 d, keeps_new h h' h2 →
        (foldr (λ kj d, max (json_depth kj.2) d) 0 ms ≤ d)%nat →
        mapM (λ kv, pair kv.1 <$> snapshot d h2 kv.2) fs
        = Some (map (λ kj, (kj.1, json_tree kj.2)) ms).
Proof.
  induction 1 as [|[k j] ms Hj _ IH]; intros h fs h'; simpl.
  - intros [= <- <-]. split; [reflexivity|]. intros; reflexivity.
  - destruct (JSON_parse j h) as [v h1] eqn:Hp.
    destruct (parse_members ms h1) as [fs' h2'] eqn:Hps. intros [= <- <-].
    destruct (Hj _ _ _ Hp) as [Hsub1 Hsnap1].
    destruct (IH _ _ _ Hps) as [Hsub2 Hsnap2].
    split; [etrans; eassumption|].
    intros h2 d Hk Hd. simpl.
    rewrite (Hsnap1 h2 d);
      [|eauto using keeps_new_weaken|exact (Nat.max_lub_l _ _ _ Hd)]. simpl.
    rewrite (Hsnap2 h2 d);
      [|eauto using keeps_new_later|exact (Nat.max_lub_r _ _ _ Hd)]. reflexivity.
Qed.

Lemma snapshot_primitive d h v :
  (∀ l, v ≠ VRef l) →
  snapshot d h v
  = Some match v with
         | VUndefined => TUndefined
         | VNull => TNull
         | VBool b => TBool b
         | VNum n => TNum n
         | VStr s => TStr s
         | VFun f => TFun f
         | VRef _ => TUndefined
         end.
Proof.
  intros Hprim. destruct v; destruct d; try reflexivity; exfalso; eapply Hprim; reflexivity.
Qed.

Lemma JSON_parse_ok j : parse_ok j.
Proof.
  induction j as [| b | z | s | js IH | ms IH] using json_nested_ind;
    intros h v h'.
  1-4: simpl; intros [= <- <-]; (split; [reflexivity|]); intros h2 d _ _;
       rewrite snapshot_primitive by discriminate; reflexivity.
  - rewrite JSON_parse_array.
    destruct (parse_items js h) as [vs h1] eqn:Hps. intros [= <- <-].
    destruct (parse_items_ok js IH _ _ _ Hps) as [Hsub Hsnap].
    pose proof (is_fresh (dom h1)) as Hfresh. apply not_elem_of_dom in Hfresh.
    split; [etrans; [exact Hsub | apply insert_subseteq; exact Hfresh]|].
    intros h2 d Hk Hd. simpl in Hd. destruct d as [|d]; [lia|]. simpl.
    rewrite (Hk (fresh (dom h1)) (CArr vs)).
    + rewrite (Hsnap h2 d); [reflexivity | | lia].
      eapply keeps_new_weaken; [apply insert_subseteq; exact Hfresh | exact Hk].
    + apply lookup_insert_eq.
    + destruct (h !! fresh (dom h1)) as [c|] eqn:Hh; [|reflexivity].
      rewrite (lookup_weaken _ _ _ _ Hh Hsub) in Hfresh. discriminate.
  - rewrite JSON_parse_object.
    destruct (parse_members ms h) as [fs h1] eqn:Hps. intros [= <- <-].
    destruct (parse_members_ok ms IH _ _ _ Hps) as [Hsub Hsnap].
    pose proof (is_fresh (dom h1)) as Hfresh. apply not_elem_of_dom in Hfresh.
    split; [etrans; [exact Hsub | apply insert_subseteq; exact Hfresh]|].
    intros h2 d Hk Hd. simpl in Hd. destruct d as [|d]; [lia|]. simpl.
    rewrite (Hk (fresh (dom h1)) (CObj fs)).
    + rewrite (Hsnap h2 d); [reflexivity | | lia].
      eapply keeps_new_weaken; [apply insert_subseteq; exact Hfresh | exact Hk].
    + apply lookup_insert_eq.
    + destruct (h !! fresh (dom h1)) as [c|] eqn:Hh; [|reflexivity].
      rewrite (lookup_weaken _ _ _ _ Hh Hsub) in Hfresh. discriminate.
Qed.

(** Parsing an array or an object returns a reference to a cell that did not
    exist. *)
Lemma JSON_parse_fresh j h v h' :
  JSON_parse j h = (v, h') →
  match j with
  | JArr _ | JObj _ => ∃ l, v = VRef l ∧ h !! l = None
  | _ => True
  end.
Proof.
  destruct j as [| b | z | s | js | ms]; try (intros; exact I).
  - rewrite JSON_parse_array.
    destruct (parse_items js h) as [vs h1] eqn:Hps. intros [= <- <-].
    destruct (parse_items_ok js (Forall_true _ _ JSON_parse_ok) _ _ _ Hps)
      as [Hsub _].
    eexists. split; [reflexivity|].
    pose proof (is_fresh (dom h1)) as Hfresh. apply not_elem_of_dom in Hfresh.
    destruct (h !! fresh (dom h1)) as [c|] eqn:Hh; [|reflexivity].
    rewrite (lookup_weaken _ _ _ _ Hh Hsub) in Hfresh. discriminate.
  - rewrite JSON_parse_object.
    destruct (parse_members ms h) as [fs h1] eqn:Hps. intros [= <- <-].
    destruct (parse_members_ok ms
                (Forall_true _ _ (λ kj, JSON_parse_ok kj.2)) _ _ _ Hps)
      as [Hsub _].
    eexists. split; [reflexivity|].
    pose proof (is_fresh (dom h1)) as Hfresh. apply not_elem_of_dom in Hfresh.
    destruct (h !! fresh (dom h1)) as [c|] eqn:Hh; [|reflexivity].
    rewrite (lookup_weaken _ _ _ _ Hh Hsub) in Hfresh. discriminate.
Qed.

(** The objects being serialized are distinct cells of the heap, so there are
    at most [size h] of them. *)
Lemma stack_bound (h : heap) (stack : list loc) :
  NoDup stack → (∀ l, l ∈ stack → is_Some (h !! l)) → (length stack ≤ size h)%nat.
Proof.
  intros Hnd Hin. rewrite <- size_dom. unfold size, set_size. simpl.
  apply submseteq_length, NoDup_submseteq; [exact Hnd|].
  intros l Hl. apply elem_of_elements, elem_of_dom, Hin, Hl.
Qed.

Lemma serialize_items_Forall2 f es js :
  Forall2 (λ v j, f v = Walked (Some j)) es js → serialize_items f es = Walked js.
Proof.
  induction 1 as [|v j es js Hv _ IH]; simpl; [reflexivity|].
  rewrite Hv. simpl. rewrite IH. reflexivity.
Qed.

Lemma serialize_members_Forall2 f fs ms :
  Forall2 (λ kv kj, kv.1 = kj.1 ∧ f kv.2 = Walked (Some kj.2)) fs ms →
  serialize_members f fs = Walked ms.
Proof.
  induction 1 as [|[k v] [k' j] fs ms [Hk Hv] _ IH]; simpl in *; [reflexivity|].
  rewrite Hv. simpl. rewrite IH. subst k'. reflexivity.
Qed.

Lemma json_tree_not_fun j f : json_tree j ≠ TFun f.
Proof. destruct j; discriminate. Qed.

(** An object that unfolds to a JSON value has no function among its
    properties, so no [toJSON] function. *)
Lemma json_object_no_toJSON n h fs (ms : list (string * json)) :
  Forall2 (λ kv kj, pair kv.1 <$> snapshot n h kv.2 = Some (kj.1, json_tree kj.2)) fs ms →
  has_toJSON (CObj fs) = false.
Proof.
  intros Hfs. unfold has_toJSON.
  assert (Hno : ∀ f, lookup_field "toJSON" fs ≠ VFun f).
  { induction Hfs as [|[k v] [k' j] fs ms Hkv _ IH]; cbn [lookup_field]; [discriminate|].
    destruct (String.eqb "toJSON" k); [|exact IH].
    intros f ->. cbn [fst snd] in Hkv. rewrite snapshot_primitive in Hkv by discriminate.
    injection Hkv as _ Hj. exact (json_tree_not_fun _ _ (eq_sym Hj)). }
  destruct (lookup_field "toJSON" fs); try reflexivity. exfalso. eapply Hno. reflexivity.
Qed.

(** A value that unfolds to a JSON value serializes to it: no [toJSON]
    function and no cycle is met, and the fuel suffices. *)
Lemma serialize_snapshot n :
  ∀ h v j fuel stack,
    snapshot n h v = Some (json_tree j) →
    (∀ l, l ∈ stack → snapshot n h (VRef l) = None) →
    NoDup stack →
    (∀ l, l ∈ stack → is_Some (h !! l)) →
    (size h < fuel + length stack)%nat →
    serialize fuel stack h v = Walked (Some j).
Proof.
  induction n as [|n IH]; intros h v j fuel stack Hsnap Hstack Hnd Hdom Hfuel.
  - destruct v; simpl in Hsnap; try discriminate;
      destruct j; simplify_eq/=; destruct fuel; reflexivity.
  - destruct v;
      try (simpl in Hsnap; destruct j; simplify_eq/=; destruct fuel; reflexivity).
    assert (Hnotin : l ∉ stack).
    { intros Hin. rewrite (Hstack _ Hin) in Hsnap. discriminate. }
    assert (Hstack' : ∀ l0, l0 ∈ stack → snapshot n h (VRef l0) = None).
    { intros l0 Hin. destruct (snapshot n h (VRef l0)) as [t0|] eqn:Hs0; [|reflexivity].
      pose proof (snapshot_mono _ _ _ _ Hs0 (S n) ltac:(lia)) as Hs1.
      rewrite (Hstack _ Hin) in Hs1. discriminate. }
    destruct (snapshot n h (VRef l)) as [t'|] eqn:Hprev.
    + pose proof (snapshot_mono _ _ _ _ Hprev (S n) ltac:(lia)) as Hm.
      rewrite Hsnap in Hm. injection Hm as <-.
      apply (IH h (VRef l) j fuel stack Hprev); assumption.
    + simpl in Hsnap. destruct (h !! l) as [c|] eqn:Hl; [|discriminate].
      assert (Hlen : (length (l :: stack) ≤ size h)%nat).
      { apply stack_bound; [constructor; assumption|].
        intros l0 [->|Hin]%elem_of_cons; [rewrite Hl; eauto | apply Hdom, Hin]. }
      simpl in Hlen. destruct fuel as [|fuel]; [simpl in Hfuel; lia|].
      assert (Hstack2 : ∀ l0, l0 ∈ l :: stack → snapshot n h (VRef l0) = None).
      { intros l0 [->|Hin]%elem_of_cons; [exact Hprev | apply Hstack', Hin]. }
      assert (Hnd2 : NoDup (l :: stack)) by (constructor; assumption).
      assert (Hdom2 : ∀ l0, l0 ∈ l :: stack → is_Some (h !! l0)).
      { intros l0 [->|Hin]%elem_of_cons; [rewrite Hl; eauto | apply Hdom, Hin]. }
      assert (Hfuel2 : (size h < fuel + length (l :: stack))%nat)
        by (simpl in *; lia).
      simpl. rewrite Hl.
      destruct c as [fs|es].
      * destruct (mapM _ fs) as [ts|] eqn:Hm; [|discriminate].
        simpl in Hsnap. destruct j; try discriminate. simpl in Hsnap.
        injection Hsnap as ->.
        apply mapM_Some, Forall2_fmap_r in Hm.
        rewrite (json_object_no_toJSON _ _ _ _ Hm).
        rewrite (bool_decide_eq_false_2 _ Hnotin).
        rewrite (serialize_members_Forall2 _ fs members); [reflexivity|].
        eapply Forall2_impl; [exact Hm|]. intros [k v] [k' j'] Hkv. simpl in *.
        destruct (snapshot n h v) as [t0|] eqn:Hv; [|discriminate].
        injection Hkv as -> ->. split; [reflexivity|].
        apply (IH h v j' fuel (l :: stack) Hv); assumption.
      * destruct (mapM _ es) as [ts|] eqn:Hm; [|discriminate].
        simpl in Hsnap. destruct j; try discriminate. simpl in Hsnap.
        injection Hsnap as ->.
        apply mapM_Some, Forall2_fmap_r in Hm.
        cbn [has_toJSON]. rewrite (bool_decide_eq_false_2 _ Hnotin).
        rewrite (serialize_items_Forall2 _ es items); [reflexivity|].
        eapply Forall2_impl; [exact Hm|]. intros v j' Hv.
        apply (IH h v j' fuel (l :: stack) Hv); assumption.
Qed.

(** The walk of a value that unfolds to a JSON value gives it. *)
Lemma JSON_walk_snapshot n h v j :
  snapshot n h v = Some (json_tree j) → JSON_walk h v = Walked (Some j).
Proof.
  intros Hsnap. unfold JSON_walk.
  apply (serialize_snapshot n h v j _ [] Hsnap).
  - intros l Hl. apply elem_of_nil in Hl. contradiction.
  - constructor.
  - intros l Hl. apply elem_of_nil in Hl. contradiction.
  - simpl. lia.
Qed.

Lemma serialize_items_ext f g es :
  (∀ v, f v = g v) → serialize_items f es = serialize_items g es.
Proof.
  intros Hfg. induction es as [|v es IH]; simpl; [reflexivity|].
  rewrite Hfg, IH. reflexivity.
Qed.

Lemma serialize_members_ext f g fs :
  (∀ v, f v = g v) → serialize_members f fs = serialize_members g fs.
Proof.
  intros Hfg. induction fs as [|[k v] fs IH]; simpl; [reflexivity|].
  rewrite Hfg, IH. reflexivity.
Qed.

(** The fuel of [JSON_stringify] is never used up: with a stack of distinct
    cells of the heap, any two amounts of fuel above [size h - length stack]
    give the same result. *)
Lemma serialize_fuel_irrelevant fuel1 :
  ∀ fuel2 stack h v,
    NoDup stack →
    (∀ l, l ∈ stack → is_Some (h !! l)) →
    (size h < fuel1 + length stack)%nat →
    (size h < fuel2 + length stack)%nat →
    serialize fuel1 stack h v = serialize fuel2 stack h v.
Proof.
  induction fuel1 as [|fuel1 IH]; intros fuel2 stack h v Hnd Hdom Hf1 Hf2;
    (destruct v; [destruct fuel2; reflexivity..|]).
  - pose proof (stack_bound h stack Hnd Hdom). simpl in Hf1. lia.
  - destruct fuel2 as [|fuel2];
      [pose proof (stack_bound h stack Hnd Hdom); simpl in Hf2; lia|].
    simpl. destruct (h !! l) as [c|] eqn:Hl; [|reflexivity].
    destruct (has_toJSON c); [reflexivity|].
    case_bool_decide as Hin; [reflexivity|].
    assert (Hnd2 : NoDup (l :: stack)) by (constructor; assumption).
    assert (Hdom2 : ∀ l0, l0 ∈ l :: stack → is_Some (h !! l0)).
    { intros l0 [->|Hl0]%elem_of_cons; [rewrite Hl; eauto | apply Hdom, Hl0]. }
    destruct c as [fs|es].
    + rewrite (serialize_members_ext _ (serialize fuel2 (l :: stack) h)); [reflexivity|].
      intros v. apply IH; try assumption; simpl; lia.
    + rewrite (serialize_items_ext _ (serialize fuel2 (l :: stack) h)); [reflexivity|].
      intros v. apply IH; try assumption; simpl; lia.
Qed.

Lemma JSON_walk_fuel fuel h v :
  (size h < fuel)%nat → serialize fuel [] h v = JSON_walk h v.
Proof.
  intros Hfuel. unfold JSON_walk. apply serialize_fuel_irrelevant.
  - constructor.
  - intros l Hl. apply elem_of_nil in Hl. contradiction.
  - simpl. lia.
  - simpl. lia.
Qed.

Lemma join_items_ext f g es :
  (∀ v, f v = g v) → join_items f es = join_items g es.
Proof.
  intros Hfg. induction es as [|v es IH]; [reflexivity|].
  cbn [join_items]. rewrite IH.
  destruct v; try reflexivity; rewrite Hfg; reflexivity.
Qed.

(** The fuel of [ToString] is never used up either. *)
Lemma to_text_fuel_irrelevant `{Externals} fuel1 :
  ∀ fuel2 stack h v,
    NoDup stack →
    (∀ l, l ∈ stack → is_Some (h !! l)) →
    (size h < fuel1 + length stack)%nat →
    (size h < fuel2 + length stack)%nat →
    to_text fuel1 stack h v = to_text fuel2 stack h v.
Proof.
  induction fuel1 as [|fuel1 IH]; intros fuel2 stack h v Hnd Hdom Hf1 Hf2;
    (destruct v; [destruct fuel2; reflexivity..|]).
  - pose proof (stack_bound h stack Hnd Hdom). simpl in Hf1. lia.
  - destruct fuel2 as [|fuel2];
      [pose proof (stack_bound h stack Hnd Hdom); simpl in Hf2; lia|].
    cbn [to_text]. destruct (h !! l) as [[fs|es]|] eqn:Hl; try reflexivity.
    case_bool_decide as Hin; [reflexivity|].
    assert (Hnd2 : NoDup (l :: stack)) by (constructor; assumption).
    assert (Hdom2 : ∀ l0, l0 ∈ l :: stack → is_Some (h !! l0)).
    { intros l0 [->|Hl0]%elem_of_cons; [rewrite Hl; eauto | apply Hdom, Hl0]. }
    apply join_items_ext. intros v. apply IH; try assumption; simpl; lia.
Qed.

(** [JSON.stringify] of a value that unfolds to a JSON value returns it, and
    runs no code of the caller. *)
Lemma JSON_stringify_snapshot `{Externals} n h v j :
  snapshot n h v = Some (json_tree j) → JSON_stringify h v = (Ok (Some j), h).
Proof.
  intros Hsnap. unfold JSON_stringify. rewrite (JSON_walk_snapshot _ _ _ _ Hsnap).
  reflexivity.
Qed.


(** ** The ignore flags *)

Section IgnoreFlags.
Context `{Externals}.


End IgnoreFlags.



(** ** Validity and the growth of the heap *)

Section Stable.
Context `{Externals}.














End Stable.

(** ** Batch registration *)

Lemma bind_inv {A B} (m : M A) (k : A → M B) w r w' :
  bind m k w = (r, w') →
  (∃ e, m w = (Throw e, w') ∧ r = Throw e)
  ∨ ∃ a w1, m w = (Ok a, w1) ∧ k a w1 = (r, w').
Proof.
  unfold bind. destruct (m w) as [[a|e] w1]; intros Hk.
  - right. eauto.
  - left. injection Hk as <- <-. eauto.
Qed.

Section Batch.
Context `{Externals}.

Lemma writes_heap_only_bind {A B} (m : M A) (k : A → M B) :
  writes_heap_only m → (∀ a, writes_heap_only (k a)) → writes_heap_only (bind m k).
Proof.
  intros Hm Hk w r w' Hb.
  apply bind_inv in Hb as [(e & Hb & _) | (a & w1 & Hb & Hka)]; [eapply Hm, Hb|].
  apply Hm in Hb. apply Hk in Hka. rewrite Hka, Hb. reflexivity.
Qed.

Lemma writes_heap_only_read {A} (f : heap → result A) : writes_heap_only (read f).
Proof. intros w r w' [_ ->]%read_inv. symmetry. apply set_mem_id. Qed.

Lemma writes_heap_only_throw {A} e : writes_heap_only (@throw A e).
Proof. intros w r w' [= _ <-]. symmetry. apply set_mem_id. Qed.

Lemma writes_heap_only_template {A} E prefix v :
  writes_heap_only (@throw_template _ A E prefix v).
Proof. intros w r w' [= _ <-]. reflexivity. Qed.

Lemma writes_heap_only_when c m : writes_heap_only m → writes_heap_only (when c m).
Proof.
  intros Hm. destruct c; [exact Hm|]. intros w r w' [= _ <-]. symmetry. apply set_mem_id.
Qed.

(** Validation writes to the heap only, and does so only through a
    conversion function of the caller. *)
Lemma validateInteraction_frame rawInteraction mock :
  writes_heap_only (validateInteraction rawInteraction mock).
Proof.
  unfold validateInteraction.
  repeat first [ apply writes_heap_only_bind; [|intros ?]
               | apply writes_heap_only_when
               | apply writes_heap_only_read
               | apply writes_heap_only_throw
               | apply writes_heap_only_template ].
Qed.

(** The constructor leaves the server, the table, the store and the
    configuration as they are. *)
Lemma new_Interaction_frame rawInteraction mock w r w' :
  new_Interaction rawInteraction mock w = (r, w') →
  ∃ h n, w' = World h (config_mock_port w) (config_pact_consumer w) n
                (server w) (interactions w) (store w).
Proof.
  assert (Hsame : ∃ h n, w = World h (config_mock_port w) (config_pact_consumer w) n
                               (server w) (interactions w) (store w))
    by (destruct w; simpl; eauto).
  unfold new_Interaction. intros Hi.
  apply bind_inv in Hi as [(? & Hi & _) | (? & ? & Hm & Hi)].
  { apply validateInteraction_frame in Hi. rewrite Hi. simpl. eauto. }
  apply validateInteraction_Ok_valid in Hm as [-> _].
  do 8 (apply bind_inv in Hi as [(? & Hi & _) | (? & ? & Hm & Hi)];
        [apply read_inv in Hi as [_ ->]; exact Hsame
        |apply read_inv in Hm as [_ ->]]).
  apply bind_inv in Hi as [(? & Hi & _) | (id' & w1 & Hm & Hi)].
  { unfold or_else_call, ret, call_getRandomId in Hi. destruct (truthy _); discriminate. }
  assert (Hw1 : ∃ n, w1 = World (mem w) (config_mock_port w) (config_pact_consumer w) n
                             (server w) (interactions w) (store w)).
  { unfold or_else_call, ret, call_getRandomId in Hm.
    destruct (truthy _); injection Hm as _ <-; [destruct w|]; simpl; eauto. }
  destruct Hw1 as [n ->].
  do 2 (apply bind_inv in Hi as [(? & Hi & _) | (? & ? & Hm1 & Hi)];
        [discriminate | injection Hm1 as _ <-]).
  apply bind_inv in Hi as [(? & Hi & _) | (? & ? & Hm1 & Hi)];
    [apply read_inv in Hi as [_ ->]; eauto | apply read_inv in Hm1 as [_ ->]].
  apply bind_inv in Hi as [(? & Hi & _) | (? & ? & Hm1 & Hi)].
  - apply new_InteractionResponse_frame in Hi. rewrite Hi. simpl. eauto.
  - apply new_InteractionResponse_frame in Hm1. injection Hi as _ <-.
    rewrite Hm1. simpl. eauto.
Qed.

(** A constructed interaction remembers the raw interaction and the mode. *)
Lemma new_Interaction_fields rawInteraction mock w i w' :
  new_Interaction rawInteraction mock w = (Ok i, w') →
  Interaction.rawInteraction i = rawInteraction ∧ Interaction.mock i = mock.
Proof.
  unfold new_Interaction. intros Hi.
  do 14 (apply bind_Ok_inv in Hi as (? & ? & _ & Hi)).
  injection Hi as <- _. auto.
Qed.

(** A call on the server returns only when the server does. *)
Lemma call_server_Ok_inv c w u w' :
  Mock.call_server c w = (Ok u, w') →
  server_reply (server w) c = Returns tt
  ∧ w' = World (mem w) (config_mock_port w) (config_pact_consumer w) (random_ids w)
           (server w ++ [c]) (interactions w) (store w).
Proof.
  rewrite call_server_run. intros [= Hr <-]. split; [|reflexivity].
  destruct (server_reply (server w) c) as [[]|]; [reflexivity | discriminate].
Qed.

(** The single mock operation, when it returns, has added one registration to
    the calls of the server. *)
Lemma addDefaultMockInteraction_Ok interaction w id w' :
  Mock.addDefaultMockInteraction interaction w = (Ok id, w') →
  ∃ o, id = Interaction.id o
       ∧ Interaction.rawInteraction o = interaction
       ∧ Interaction.mock o = true
       ∧ server w' = (server w ++ [registration o])%list
       ∧ interactions w' = interactions w ∧ store w' = store w.
Proof.
  unfold Mock.addDefaultMockInteraction. intros Hi.
  apply bind_Ok_inv in Hi as (o & w1 & Ho & Hi).
  apply bind_Ok_inv in Hi as ([] & w2 & Hc & Hi).
  injection Hi as <- <-. apply call_server_Ok_inv in Hc as [_ ->].
  destruct (new_Interaction_fields _ _ _ _ _ Ho) as [Hraw Hmock].
  destruct (new_Interaction_frame _ _ _ _ _ Ho) as (h & n & ->).
  exists o. simpl. repeat split; auto.
Qed.



End Batch.

Section BatchMock.
Context `{Externals}.


End BatchMock.





Section BatchPact.
Context `{Externals}.

Lemma store_addInteraction_run o w :
  Mock.store_addInteraction o w
  = (of_reply (store_reply (store w) o),
     World (mem w) (config_mock_port w) (config_pact_consumer w) (random_ids w)
       (server w) (interactions w) (store w ++ [o])).
Proof. reflexivity. Qed.

(** A call on the store returns only when the store does. *)
Lemma store_addInteraction_Ok_inv o w u w' :
  Mock.store_addInteraction o w = (Ok u, w') →
  store_reply (store w) o = Returns tt
  ∧ w' = World (mem w) (config_mock_port w) (config_pact_consumer w) (random_ids w)
           (server w) (interactions w) (store w ++ [o]).
Proof.
  rewrite store_addInteraction_run. intros [= Hr <-]. split; [|reflexivity].
  destruct (store_reply (store w) o) as [[]|]; [reflexivity | discriminate].
Qed.

(** The single pact operation, when it returns, has entered the interaction
    in the table, registered it with the server and handed it to the
    store. *)
Lemma addDefaultPactInteraction_Ok interaction w id w' :
  Mock.addDefaultPactInteraction interaction w = (Ok id, w') →
  ∃ o, id = Interaction.id o
       ∧ Interaction.rawInteraction o = interaction
       ∧ Interaction.mock o = false
       ∧ interactions w' = <[Interaction.id o := o]> (interactions w)
       ∧ server w' = (server w ++ [registration o])%list
       ∧ store w' = (store w ++ [o])%list.
Proof.
  unfold Mock.addDefaultPactInteraction. intros Hi.
  apply bind_Ok_inv in Hi as (o & w1 & Ho & Hi).
  apply bind_Ok_inv in Hi as ([] & w2 & Hset & Hi).
  apply bind_Ok_inv in Hi as ([] & w3 & Hcall & Hi).
  apply bind_Ok_inv in Hi as ([] & w4 & Hstore & Hi).
  injection Hi as <- <-. apply store_addInteraction_Ok_inv in Hstore as [_ ->].
  apply call_server_Ok_inv in Hcall as [_ ->]. injection Hset as <-.
  destruct (new_Interaction_fields _ _ _ _ _ Ho) as [Hraw Hmock].
  destruct (new_Interaction_frame _ _ _ _ _ Ho) as (h & n & ->).
  exists o. simpl. repeat split; auto.
Qed.

(** The loop of the batch methods never touches the table or the store. *)
Lemma batch_loop_frame mock elems ids w r w' :
  Mock.batch_loop mock elems ids w = (r, w') →
  interactions w' = interactions w ∧ store w' = store w.
Proof.
  revert ids w. induction elems as [|x elems IH]; intros ids w; simpl.
  - intros [= _ <-]. auto.
  - intros Hl. apply bind_inv in Hl as [(e & Hx & _) | (o & w1 & Hx & Hl)].
    + destruct (new_Interaction_frame _ _ _ _ _ Hx) as (h & n & ->). auto.
    + destruct (new_Interaction_frame _ _ _ _ _ Hx) as (h & n & ->).
      apply bind_inv in Hl as [(e & Hc & _) | ([] & w2 & Hc & Hl)].
      * rewrite call_server_run in Hc. injection Hc as _ <-. auto.
      * rewrite call_server_run in Hc. injection Hc as _ <-. apply IH in Hl. exact Hl.
Qed.

(** Nor does it touch the configuration. *)
Lemma batch_loop_config mock elems ids w r w' :
  Mock.batch_loop mock elems ids w = (r, w') →
  config_mock_port w' = config_mock_port w
  ∧ config_pact_consumer w' = config_pact_consumer w.
Proof.
  revert ids w. induction elems as [|x elems IH]; intros ids w; simpl.
  - intros [= _ <-]. auto.
  - intros Hl. apply bind_inv in Hl as [(e & Hx & _) | (o & w1 & Hx & Hl)].
    + destruct (new_Interaction_frame _ _ _ _ _ Hx) as (h & n & ->). auto.
    + destruct (new_Interaction_frame _ _ _ _ _ Hx) as (h & n & ->).
      apply bind_inv in Hl as [(e & Hc & _) | ([] & w2 & Hc & Hl)].
      * rewrite call_server_run in Hc. injection Hc as _ <-. auto.
      * rewrite call_server_run in Hc. injection Hc as _ <-. apply IH in Hl. exact Hl.
Qed.

(** The batch pact operation leaves the table and the store as they were,
    whatever its argument. *)
Lemma addDefaultPactInteractions_frame interactions0 w r w' :
  Mock.addDefaultPactInteractions interactions0 w = (r, w') →
  interactions w' = interactions w ∧ store w' = store w.
Proof.
  unfold Mock.addDefaultPactInteractions.
  destruct (negb (isArray (mem w) interactions0)).
  - intros [= _ <-]. auto.
  - apply batch_loop_frame.
Qed.

End BatchPact.

(** C1 (the code at the failing input): [addDefaultPactInteraction] enters the
    interaction in the table and hands it to the store; on the array that
    holds the same raw interaction, [addDefaultPactInteractions] registers it
    with the server and returns its id, but the table stays empty and the
    store receives nothing. *)
Theorem addDefaultPactInteractions_skips_table_and_store :
  let w := world_of heap_pact in
  let single := @Mock.addDefaultPactInteraction sample_externals (VRef 1) w in
  let batch := @Mock.addDefaultPactInteractions sample_externals (VRef 4) w in
  single.1 = Ok (VStr "id0")
  ∧ server single.2 = [registration pact_object]
  ∧ interactions single.2 !! VStr "id0" = Some pact_object
  ∧ store single.2 = [pact_object]
  ∧ batch.1 = Ok [VStr "id0"]
  ∧ server batch.2 = [registration pact_object]
  ∧ interactions batch.2 !! VStr "id0" = None
  ∧ interactions batch.2 = ∅
  ∧ store batch.2 = [].
Proof.
  repeat split; vm_compute; reflexivity.
Qed.

(** C5: for the registry of every kind, [add] fails with [`name` is required]
    when the name is absent or the empty text, with [`func` is required] when
    the name is given and the function is not callable, and otherwise stores
    the function under the name, over an earlier one; [get] fails with
    [Custom <Kind> Handler Not Found - <name>] when the name has no entry and
    returns the stored function when it has one. *)
Theorem handler_registry_contract (k : Handler.kind) (r : gmap string value) :
  (∀ func, Handler.add None func r = Throw (HandlerError "`name` is required"))
  ∧ (∀ func, Handler.add (Some "") func r = Throw (HandlerError "`name` is required"))
  ∧ (∀ name func, name ≠ "" → typeof func ≠ "function" →
       Handler.add (Some name) func r = Throw (HandlerError "`func` is required"))
  ∧ (∀ name func, name ≠ "" → typeof func = "function" →
       Handler.add (Some name) func r = Ok (<[name := func]> r)
       ∧ Handler.get k name (<[name := func]> r) = Ok func
       ∧ ∀ other, other ≠ name →
           Handler.get k other (<[name := func]> r) = Handler.get k other r)
  ∧ (∀ name, r !! name = None →
       Handler.get k name r
       = Throw (HandlerError
                  ("Custom " +:+ Handler.label k +:+ " Handler Not Found - " +:+ name)))
  ∧ (∀ name func, r !! name = Some func → Handler.get k name r = Ok func).
Proof.
  repeat split.
  - intros name func Hname Hfunc. unfold Handler.add.
    destruct (String.eqb_spec name ""); [contradiction|].
    destruct (String.eqb_spec (typeof func) "function"); [contradiction|]. reflexivity.
  - unfold Handler.add.
    destruct (String.eqb_spec name ""); [contradiction|].
    destruct (String.eqb_spec (typeof func) "function"); [|contradiction]. reflexivity.
  - unfold Handler.get. rewrite lookup_insert_eq. reflexivity.
  - intros other Hother. unfold Handler.get. rewrite lookup_insert_ne by congruence.
    reflexivity.
  - intros name Hnone. unfold Handler.get. rewrite Hnone. reflexivity.
  - intros name func Hsome. unfold Handler.get. rewrite Hsome. reflexivity.
Qed.

(** The cases of the test suite: a lookup miss in the data and the pact
    interaction registries, a function that is not callable, and a stored
    handler read back and overwritten. *)
Lemma handler_registry_contract_witness :
  Handler.get Handler.Data "hello" ∅
  = Throw (HandlerError "Custom Data Handler Not Found - hello")
  ∧ Handler.get Handler.PactInteraction "hello" ∅
    = Throw (HandlerError "Custom Pact Interaction Handler Not Found - hello")
  ∧ Handler.add (Some "hello") VUndefined ∅ = Throw (HandlerError "`func` is required")
  ∧ Handler.get Handler.Data "a" (<["a" := VFun "g"]> (<["a" := VFun "noop"]> ∅))
    = Ok (VFun "g").
Proof.
  split; [|split; [|split]].
  - apply (proj1 (proj2 (proj2 (proj2 (proj2
             (handler_registry_contract Handler.Data ∅)))))).
    reflexivity.
  - apply (proj1 (proj2 (proj2 (proj2 (proj2
             (handler_registry_contract Handler.PactInteraction ∅)))))).
    reflexivity.
  - apply (proj1 (proj2 (proj2 (handler_registry_contract Handler.Data ∅))));
      discriminate.
  - refine (proj1 (proj2 (proj1 (proj2 (proj2 (proj2
              (handler_registry_contract Handler.Data (<["a" := VFun "noop"]> ∅)))))
              "a" (VFun "g") _ _))); [discriminate | reflexivity].
Defined.

(** ** Copying a response body through JSON *)

Section ResponseBody.
Context `{Externals}.

(** C4, as the code has it.  For a response whose body is an object or an
    array that unfolds to a JSON value (null, booleans, finite numbers other
    than negative zero, strings, arrays and objects of these, without cycles),
    and a value-matcher transform that is pure (it may allocate but leaves
    existing cells alone): the constructed [rawBody] is a reference to a cell
    that did not exist before, so it is not the caller's reference; it is
    deep-equal to the body as supplied; it unfolds to the same structure in
    every heap that keeps the cells created by the construction, whatever
    that heap has in the caller's cells; and [body] is the transform of the
    supplied body. *)
Theorem InteractionResponse_rawBody_copy response w l n j :
  (∀ h v, h ⊆ (setValueFromMatcher h v).2) →
  get (mem w) response "body" = Ok (VRef l) →
  snapshot n (mem w) (VRef l) = Some (json_tree j) →
  ∃ r w',
    new_InteractionResponse response w = (Ok r, w')
    ∧ (∃ l', InteractionResponse.rawBody r = VRef l' ∧ mem w !! l' = None)
    ∧ InteractionResponse.rawBody r ≠ VRef l
    ∧ deep_equal (n + json_depth j) (mem w') (InteractionResponse.rawBody r)
        (mem w) (VRef l)
    ∧ (∀ h2, keeps_new (mem w) (mem w') h2 →
         snapshot (json_depth j) h2 (InteractionResponse.rawBody r) = Some (json_tree j))
    ∧ InteractionResponse.body r
      = (setValueFromMatcher (JSON_parse j (mem w)).2 (VRef l)).1.
Proof.
  intros Hpure Hbody Hsnap.
  destruct (get_defined _ _ _ _ "status" Hbody) as [s Hs].
  destruct (get_defined _ _ _ _ "headers" Hbody) as [hd Hhd].
  pose proof (JSON_stringify_snapshot _ _ _ _ Hsnap) as Hstr.
  destruct (JSON_parse j (mem w)) as [v' h1] eqn:Hparse.
  destruct (JSON_parse_ok j _ _ _ Hparse) as [Hsub Hcopy].
  pose proof (JSON_parse_fresh _ _ _ _ Hparse) as Hfresh.
  pose proof (Hpure h1 (VRef l)) as Hsub2.
  destruct (setValueFromMatcher h1 (VRef l)) as [b' h2] eqn:Htr.
  assert (Hnew : ∃ l', v' = VRef l' ∧ mem w !! l' = None).
  { destruct n as [|n]; [discriminate|]. simpl in Hsnap.
    destruct (mem w !! l) as [[fs|es]|]; [| |discriminate];
      destruct (mapM _ _); try discriminate;
      destruct j; try discriminate; exact Hfresh. }
  exists (InteractionResponse.mk s hd v' b'), (set_mem h2 w).
  split; [|split; [|split; [|split; [|split]]]].
  - unfold new_InteractionResponse, bind, read. rewrite Hs, Hhd, Hbody.
    simpl. unfold json_copy. rewrite Hstr, Hparse.
    unfold ret, call_setValueFromMatcher. simpl. rewrite Htr. reflexivity.
  - exact Hnew.
  - simpl. destruct Hnew as (l' & -> & Hl'). intros [= ->].
    destruct n as [|n]; [discriminate|]. simpl in Hsnap. rewrite Hl' in Hsnap.
    discriminate.
  - exists (json_tree j). simpl. split.
    + apply Hcopy; [|lia]. intros l0 c Hl0 _. eapply lookup_weaken; eassumption.
    + apply (snapshot_mono _ _ _ _ Hsnap). lia.
  - simpl. intros h3 Hkeep. apply Hcopy; [|lia].
    eapply keeps_new_weaken; eassumption.
  - simpl. rewrite Htr. reflexivity.
Qed.

End ResponseBody.

Lemma InteractionResponse_rawBody_copy_witness :
  ∃ r w',
    @new_InteractionResponse sample_externals (VRef 1) (world_of heap_body) = (Ok r, w')
    ∧ InteractionResponse.rawBody r ≠ VRef 2
    ∧ deep_equal (2 + json_depth json_body) (mem w') (InteractionResponse.rawBody r)
        heap_body (VRef 2)
    ∧ InteractionResponse.body r = VRef 2.
Proof.
  destruct (@InteractionResponse_rawBody_copy sample_externals (VRef 1)
              (world_of heap_body) 2 2 json_body)
    as (r & w' & Hrun & _ & Hne & Heq & _ & Hbody).
  - intros h v. simpl. reflexivity.
  - reflexivity.
  - vm_compute. reflexivity.
  - exists r, w'. repeat split; assumption.
Defined.

(** C4 as stated fails: the body [{value: NaN}] is a structured body, and the
    [rawBody] constructed from it is [{value: null}], which is not deep-equal
    to it. *)
Lemma rawBody_not_deep_equal_counterexample :
  let w := world_of heap_nan in
  let outcome := @new_InteractionResponse sample_externals (VRef 1) w in
  get (mem w) (VRef 1) "body" = Ok (VRef 2)
  ∧ snapshot 1 (mem w) (VRef 2) = Some (TObj [("value", TNum NNaN)])
  ∧ ∃ r, outcome.1 = Ok r
         ∧ snapshot 1 (mem outcome.2) (InteractionResponse.rawBody r)
           = Some (TObj [("value", TNull)])
         ∧ ∀ d, ¬ deep_equal d (mem outcome.2) (InteractionResponse.rawBody r)
                    (mem w) (VRef 2).
Proof.
  intros w outcome. split; [reflexivity|]. split; [reflexivity|].
  eexists. split; [vm_compute; reflexivity|]. split; [vm_compute; reflexivity|].
  intros d (t & Hraw & Hsupplied).
  destruct d as [|[|d]]; vm_compute in Hraw, Hsupplied; congruence.
Qed.

(** * Further properties of the code *)

(** ** The checks of [validateInteraction], one by one *)

Section ValidationSteps.
Context `{Externals}.


(** In contract mode the constructor checks [provider], then [state], then
    [uponReceiving] of an object, and rejects the first that is not non-empty
    text: with the message that names it and interpolates its text when the
    value has a text, and with what the conversion raises otherwise.  Nothing
    but the heap has changed then, and the heap only by what a conversion
    function of the rejected value, when it has one, does. *)
Theorem contract_fields_checked_in_order rawInteraction w provider state uponReceiving :
  typeof rawInteraction = "object" →
  get (mem w) rawInteraction "provider" = Ok provider →
  get (mem w) rawInteraction "state" = Ok state →
  get (mem w) rawInteraction "uponReceiving" = Ok uponReceiving →
  (not_text provider = true →
   new_Interaction rawInteraction false w
   = (Throw (interaction_error "Invalid provider name provided - " (mem w) provider),
      set_mem (ToString (mem w) provider).2 w))
  ∧ (not_text provider = false → not_text state = true →
     new_Interaction rawInteraction false w
     = (Throw (interaction_error "Invalid state provided - " (mem w) state),
        set_mem (ToString (mem w) state).2 w))
  ∧ (not_text provider = false → not_text state = false →
     not_text uponReceiving = true →
     new_Interaction rawInteraction false w
     = (Throw (interaction_error "Invalid upon receiving description provided - "
                 (mem w) uponReceiving),
        set_mem (ToString (mem w) uponReceiving).2 w)).
Proof.
  intros Hty Hp Hs Hu.
  destruct (get_defined _ _ _ _ "withRequest" Hp) as [wr Hwr].
  destruct (get_defined _ _ _ _ "willRespondWith" Hp) as [ww Hww].
  assert (Hrun : ∀ e w',
    (run when (not_text provider)
           (throw_template PactumInteractionError
              "Invalid provider name provided - " provider) in
     run when (not_text state)
           (throw_template PactumInteractionError "Invalid state provided - " state) in
     when (not_text uponReceiving)
       (throw_template PactumInteractionError
          "Invalid upon receiving description provided - " uponReceiving)) w
    = (Throw e, w') →
    new_Interaction rawInteraction false w = (Throw e, w')).
  { intros e w' He. apply new_Interaction_invalid. unfold validateInteraction.
    rewrite Hty. cbn [String.eqb Ascii.eqb Bool.eqb negb]. rewrite bind_when_false.
    rewrite (bind_read _ _ _ _ Hp), (bind_read _ _ _ _ Hs), (bind_read _ _ _ _ Hu),
      (bind_read _ _ _ _ Hwr), (bind_read _ _ _ _ Hww).
    rewrite bind_when_true. apply bind_Throw. exact He. }
  split; [|split].
  - intros Hbad. apply Hrun. rewrite Hbad. reflexivity.
  - intros Hok Hbad. apply Hrun. rewrite Hok, Hbad. reflexivity.
  - intros Hok1 Hok2 Hbad. apply Hrun. rewrite Hok1, Hok2, Hbad. reflexivity.
Qed.


(** After the method has passed, a [withRequest.path] that is not non-empty
    text is rejected in either mode: with the request-path error, which
    interpolates its text, when the path has a text, and with what the
    conversion raises otherwise.  Nothing but the heap has changed then, and
    the heap only by what a conversion function of the path, when it has one,
    does. *)
Theorem path_must_be_text rawInteraction mock w withRequest method path :
  get (mem w) rawInteraction "withRequest" = Ok withRequest →
  (mock = true ∨ contract_fields (mem w) rawInteraction) →
  get (mem w) withRequest "method" = Ok method →
  not_text method = false →
  has ALLOWED_REQUEST_METHODS method = true →
  get (mem w) withRequest "path" = Ok path →
  not_text path = true →
  new_Interaction rawInteraction mock w
  = (Throw (interaction_error "Invalid interaction request path provided - " (mem w) path),
     set_mem (ToString (mem w) path).2 w).
Proof.
  intros Hwr Hmode Hm Hmt Hma Hp Hpt. apply new_Interaction_invalid.
  assert (Hdef : method ≠ VUndefined) by (intros ->; discriminate).
  assert (Hobj : typeof withRequest = "object") by exact (get_object _ _ _ _ Hm Hdef).
  assert (Hwdef : withRequest ≠ VUndefined) by (intros ->; discriminate).
  destruct (validateInteraction_request _ _ _ _ Hwr Hwdef Hobj Hmode) as (ww & _ & ->).
  rewrite (bind_read _ _ _ _ Hm), Hmt, bind_when_false, Hma. cbn [negb].
  rewrite bind_when_false, (bind_read _ _ _ _ Hp), Hpt. reflexivity.
Qed.

End ValidationSteps.

Section ValidationOutcome.
Context `{Externals}.


(** [validateInteraction] accepts exactly the raw interactions that are
    [valid_interaction]: an allowed method, a non-empty text path and a
    numeric status, and in contract mode non-empty text contract fields and
    falsy ignore flags; and when it accepts it has changed nothing. *)
Theorem validateInteraction_accepts_iff rawInteraction mock w w' :
  validateInteraction rawInteraction mock w = (Ok tt, w')
  ↔ w' = w ∧ valid_interaction (mem w) rawInteraction mock.
Proof.
  split.
  - apply validateInteraction_Ok_valid.
  - intros [-> Hvalid]. apply valid_validateInteraction_Ok, Hvalid.
Qed.

End ValidationOutcome.

Section ValidationErrors.
Context `{Externals}.





End ValidationErrors.

(** ** What a constructed interaction is *)

Section Constructed.
Context `{Externals}.

(** The steps of a construction that returns. *)
Lemma new_Interaction_Ok_inv rawInteraction mock w i w' :
  new_Interaction rawInteraction mock w = (Ok i, w') →
  ∃ withRequest willRespondWith w1,
    valid_interaction (mem w) rawInteraction mock
    ∧ get (mem w) rawInteraction "withRequest" = Ok withRequest
    ∧ get (mem w) rawInteraction "willRespondWith" = Ok willRespondWith
    ∧ get (mem w) rawInteraction "provider" = Ok (Interaction.provider i)
    ∧ get (mem w) rawInteraction "state" = Ok (Interaction.state i)
    ∧ get (mem w) rawInteraction "uponReceiving" = Ok (Interaction.uponReceiving i)
    ∧ mem w1 = mem w
    ∧ new_InteractionRequest (mem w) withRequest = Ok (Interaction.withRequest i)
    ∧ new_InteractionResponse willRespondWith w1
      = (Ok (Interaction.willRespondWith i), w').
Proof.
  unfold new_Interaction. intros Hi.
  apply bind_Ok_inv in Hi as ([] & ? & Hv & Hi).
  apply validateInteraction_Ok_valid in Hv as [-> Hv].
  apply bind_Ok_inv in Hi as (id & ? & Hid & Hi). apply read_inv in Hid as [Hid ->].
  apply bind_Ok_inv in Hi as (port & ? & Hport & Hi). apply read_inv in Hport as [Hport ->].
  apply bind_Ok_inv in Hi as (cons & ? & Hcons & Hi). apply read_inv in Hcons as [Hcons ->].
  apply bind_Ok_inv in Hi as (prov & ? & Hprov & Hi). apply read_inv in Hprov as [Hprov ->].
  apply bind_Ok_inv in Hi as (st & ? & Hst & Hi). apply read_inv in Hst as [Hst ->].
  apply bind_Ok_inv in Hi as (ur & ? & Hur & Hi). apply read_inv in Hur as [Hur ->].
  apply bind_Ok_inv in Hi as (wr & ? & Hwr & Hi). apply read_inv in Hwr as [Hwr ->].
  apply bind_Ok_inv in Hi as (ww & ? & Hww & Hi). apply read_inv in Hww as [Hww ->].
  apply bind_Ok_inv in Hi as (id' & w1 & Hgen & Hi).
  assert (Hmem : mem w1 = mem w).
  { unfold or_else_call, ret, call_getRandomId in Hgen.
    destruct (truthy id); injection Hgen as _ <-; reflexivity. }
  apply bind_Ok_inv in Hi as (port' & ? & Hp' & Hi). injection Hp' as _ <-.
  apply bind_Ok_inv in Hi as (cons' & ? & Hc' & Hi). injection Hc' as _ <-.
  apply bind_Ok_inv in Hi as (req & ? & Hreq & Hi). apply read_inv in Hreq as [Hreq ->].
  apply bind_Ok_inv in Hi as (resp & w2 & Hresp & Hi).
  injection Hi as <- <-. simpl. rewrite Hmem in Hreq.
  exists wr, ww, w1. repeat split; assumption.
Qed.

(** The fields of a constructed request are the properties of the raw
    request, the two flags reduced to booleans. *)
Lemma new_InteractionRequest_fields h request r :
  new_InteractionRequest h request = Ok r →
  get h request "method" = Ok (InteractionRequest.method r)
  ∧ get h request "path" = Ok (InteractionRequest.path r)
  ∧ ∃ ignoreBody ignoreQuery,
      get h request "ignoreBody" = Ok ignoreBody
      ∧ get h request "ignoreQuery" = Ok ignoreQuery
      ∧ InteractionRequest.ignoreBody r
        = (if String.eqb (typeof ignoreBody) "boolean" then ignoreBody else VBool false)
      ∧ InteractionRequest.ignoreQuery r
        = (if String.eqb (typeof ignoreQuery) "boolean" then ignoreQuery else VBool false).
Proof.
  unfold new_InteractionRequest. intros Hr.
  apply rbind_Ok_inv in Hr as (m & Hm & Hr).
  apply rbind_Ok_inv in Hr as (p & Hp & Hr).
  apply rbind_Ok_inv in Hr as (hd & Hhd & Hr).
  apply rbind_Ok_inv in Hr as (q & Hq & Hr).
  apply rbind_Ok_inv in Hr as (b & Hb & Hr).
  apply rbind_Ok_inv in Hr as (ib & Hib & Hr).
  apply rbind_Ok_inv in Hr as (iq & Hiq & Hr).
  injection Hr as <-. simpl. repeat split; try assumption.
  exists ib, iq. auto.
Qed.

Lemma new_InteractionResponse_status response w r w' :
  new_InteractionResponse response w = (Ok r, w') →
  get (mem w) response "status" = Ok (InteractionResponse.status r).
Proof.
  unfold new_InteractionResponse. intros Hr.
  apply bind_Ok_inv in Hr as (s & ? & Hs & Hr). apply read_inv in Hs as [Hs ->].
  do 4 (apply bind_Ok_inv in Hr as (? & ? & _ & Hr)).
  injection Hr as <- _. exact Hs.
Qed.

Lemma falsy_flag_false v :
  truthy v = false →
  (if String.eqb (typeof v) "boolean" then v else VBool false) = VBool false.
Proof. destruct v; simpl; try reflexivity. intros ->. reflexivity. Qed.

Lemma flag_boolean v :
  typeof (if String.eqb (typeof v) "boolean" then v else VBool false) = "boolean".
Proof. destruct v; reflexivity. Qed.

(** Every constructed [Interaction] is fully valid: its method is one of the
    allowed methods, its path is non-empty text, its status is a number and
    its two flags are booleans; a contract interaction moreover has non-empty
    text for [provider], [state] and [uponReceiving], and both flags
    [false]. *)
Theorem constructed_Interaction_valid rawInteraction mock w i w' :
  new_Interaction rawInteraction mock w = (Ok i, w') →
  let request := Interaction.withRequest i in
  has ALLOWED_REQUEST_METHODS (InteractionRequest.method request) = true
  ∧ not_text (InteractionRequest.path request) = false
  ∧ typeof (InteractionResponse.status (Interaction.willRespondWith i)) = "number"
  ∧ typeof (InteractionRequest.ignoreBody request) = "boolean"
  ∧ typeof (InteractionRequest.ignoreQuery request) = "boolean"
  ∧ (mock = false →
       not_text (Interaction.provider i) = false
       ∧ not_text (Interaction.state i) = false
       ∧ not_text (Interaction.uponReceiving i) = false
       ∧ InteractionRequest.ignoreBody request = VBool false
       ∧ InteractionRequest.ignoreQuery request = VBool false).
Proof.
  intros Hi request.
  destruct (new_Interaction_Ok_inv _ _ _ _ _ Hi)
    as (wr & ww & w1 & Hv & Hwr & Hww & Hprov & Hst & Hur & Hmem & Hreq & Hresp).
  destruct Hv
    as (wr' & ww' & m & p & s & Hwr' & Hww' & Hm & Hmt & Hma & Hp & Hpt & Hs & Hsn
        & Hcontract).
  rewrite Hwr in Hwr'. injection Hwr' as <-.
  rewrite Hww in Hww'. injection Hww' as <-.
  apply new_InteractionRequest_fields in Hreq
    as (Hrm & Hrp & ib & iq & Hib & Hiq & Hrib & Hriq).
  apply new_InteractionResponse_status in Hresp. rewrite Hmem in Hresp.
  rewrite Hm in Hrm. injection Hrm as Hrm. rewrite Hp in Hrp. injection Hrp as Hrp.
  rewrite Hs in Hresp. injection Hresp as Hresp.
  subst request. rewrite <- Hrm, <- Hrp, <- Hresp, Hrib, Hriq.
  repeat split; try assumption; try apply flag_boolean.
  all: subst mock; destruct (Hcontract eq_refl)
         as [(p' & s' & u' & Hp' & Hpt' & Hs' & Hst' & Hu' & Hut')
             (iq' & ib' & Hiq' & Hiqf & Hib' & Hibf)].
  - rewrite Hprov in Hp'. injection Hp' as ->. exact Hpt'.
  - rewrite Hst in Hs'. injection Hs' as ->. exact Hst'.
  - rewrite Hur in Hu'. injection Hu' as ->. exact Hut'.
  - rewrite Hib in Hib'. injection Hib' as ->. apply falsy_flag_false, Hibf.
  - rewrite Hiq in Hiq'. injection Hiq' as ->. apply falsy_flag_false, Hiqf.
Qed.

(** The response descriptor is constructed only when the body can be copied. *)
Lemma new_InteractionResponse_copyable response w r w' body :
  new_InteractionResponse response w = (Ok r, w') →
  get (mem w) response "body" = Ok body →
  copyable (mem w) body.
Proof.
  unfold new_InteractionResponse. intros Hr Hbody.
  apply bind_Ok_inv in Hr as (s & ? & Hs & Hr). apply read_inv in Hs as [_ ->].
  apply bind_Ok_inv in Hr as (hd & ? & Hhd & Hr). apply read_inv in Hhd as [_ ->].
  apply bind_Ok_inv in Hr as (b & ? & Hb & Hr). apply read_inv in Hb as [Hb ->].
  rewrite Hbody in Hb. injection Hb as <-.
  apply bind_Ok_inv in Hr as (rb & w1 & Hcopy & _).
  unfold copyable.
  destruct (truthy body && String.eqb (typeof body) "object"); [|left; reflexivity].
  right. unfold json_copy in Hcopy.
  destruct (JSON_stringify (mem w) body) as [[[j|]|e] h1]; try discriminate. eauto.
Qed.

(** The constructor returns exactly on the raw interactions that are valid
    and whose response body can be copied through JSON: the body is not an
    object, or [JSON.stringify] returns a text for it (after the [toJSON]
    functions it meets, if any, have run). *)
Theorem new_Interaction_returns_iff rawInteraction mock w :
  (∃ i w', new_Interaction rawInteraction mock w = (Ok i, w'))
  ↔ valid_interaction (mem w) rawInteraction mock
    ∧ ∀ willRespondWith body,
        get (mem w) rawInteraction "willRespondWith" = Ok willRespondWith →
        get (mem w) willRespondWith "body" = Ok body →
        copyable (mem w) body.
Proof.
  split.
  - intros (i & w' & Hi).
    destruct (new_Interaction_Ok_inv _ _ _ _ _ Hi)
      as (wr & ww & w1 & Hv & Hwr & Hww & _ & _ & _ & Hmem & _ & Hresp).
    split; [exact Hv|].
    intros ww' body Hww' Hbody. rewrite Hww in Hww'. injection Hww' as <-.
    rewrite <- Hmem. eapply new_InteractionResponse_copyable; [exact Hresp|].
    rewrite Hmem. exact Hbody.
  - intros [Hvalid Hcopy]. apply new_Interaction_total; [exact Hvalid | exact Hcopy].
Qed.

End Constructed.

(** ** The body of a response *)

Section Bodies.
Context `{Externals}.

(** The steps of constructing a response descriptor that returns. *)
Lemma new_InteractionResponse_Ok_inv response w r w' :
  new_InteractionResponse response w = (Ok r, w') →
  ∃ body w1,
    get (mem w) response "body" = Ok body
    ∧ (if truthy body && String.eqb (typeof body) "object"
       then json_copy body w = (Ok (InteractionResponse.rawBody r), w1)
       else InteractionResponse.rawBody r = body ∧ w1 = w)
    ∧ setValueFromMatcher (mem w1) body = (InteractionResponse.body r, mem w').
Proof.
  unfold new_InteractionResponse. intros Hr.
  apply bind_Ok_inv in Hr as (s & ? & Hs & Hr). apply read_inv in Hs as [_ ->].
  apply bind_Ok_inv in Hr as (hd & ? & Hhd & Hr). apply read_inv in Hhd as [_ ->].
  apply bind_Ok_inv in Hr as (b & ? & Hb & Hr). apply read_inv in Hb as [Hb ->].
  apply bind_Ok_inv in Hr as (rb & w1 & Hcopy & Hr).
  apply bind_Ok_inv in Hr as (b' & w2 & Htr & Hr). injection Hr as <- <-.
  unfold call_setValueFromMatcher in Htr.
  destruct (setValueFromMatcher (mem w1) b) as [v' h'] eqn:Hsv.
  injection Htr as <- <-.
  exists b, w1. simpl. split; [exact Hb|]. split; [|exact Hsv].
  destruct (truthy b && String.eqb (typeof b) "object"); [exact Hcopy|].
  injection Hcopy as <- <-. auto.
Qed.

(** A body that is not an object ([undefined], [null], a string, a number, a
    boolean) is kept as it is in [rawBody]: nothing is copied, and the heap
    changes only as the transform changes it. *)
Theorem primitive_body_kept response w r w' body :
  new_InteractionResponse response w = (Ok r, w') →
  get (mem w) response "body" = Ok body →
  typeof body ≠ "object" ∨ body = VNull →
  InteractionResponse.rawBody r = body
  ∧ InteractionResponse.body r = (setValueFromMatcher (mem w) body).1
  ∧ mem w' = (setValueFromMatcher (mem w) body).2.
Proof.
  intros Hr Hbody Hprim.
  apply new_InteractionResponse_Ok_inv in Hr as (b & w1 & Hb & Hraw & Htr).
  rewrite Hbody in Hb. injection Hb as <-.
  assert (Hcond : truthy body && String.eqb (typeof body) "object" = false).
  { destruct Hprim as [Hty | ->]; [|reflexivity].
    destruct (String.eqb_spec (typeof body) "object"); [contradiction|].
    apply andb_false_r. }
  rewrite Hcond in Hraw. destruct Hraw as [Hraw ->]. rewrite Htr. auto.
Qed.

(** Whatever object or array the body is, a constructed [rawBody] is plain
    JSON data in cells of its own: it unfolds to the JSON value that
    [JSON.stringify] gives for the body (after the [toJSON] functions it
    meets, if any, have run), in the final heap and in every heap that keeps
    the cells created by the construction (the transform being pure). *)
Theorem rawBody_is_plain_JSON response w r w' l :
  (∀ h v, h ⊆ (setValueFromMatcher h v).2) →
  new_InteractionResponse response w = (Ok r, w') →
  get (mem w) response "body" = Ok (VRef l) →
  ∃ j h1, JSON_stringify (mem w) (VRef l) = (Ok (Some j), h1)
       ∧ snapshot (json_depth j) (mem w') (InteractionResponse.rawBody r)
         = Some (json_tree j)
       ∧ ∀ h2, keeps_new h1 (mem w') h2 →
           snapshot (json_depth j) h2 (InteractionResponse.rawBody r)
           = Some (json_tree j).
Proof.
  intros Hpure Hr Hbody.
  apply new_InteractionResponse_Ok_inv in Hr as (b & w1 & Hb & Hraw & Htr).
  rewrite Hbody in Hb. injection Hb as <-. simpl in Hraw.
  unfold json_copy in Hraw.
  destruct (JSON_stringify (mem w) (VRef l)) as [[[j|]|e] h0]; try discriminate.
  destruct (JSON_parse j h0) as [v' h1] eqn:Hparse.
  injection Hraw as <- <-. simpl in Htr.
  destruct (JSON_parse_ok j _ _ _ Hparse) as [Hsub Hcopy].
  pose proof (Hpure h1 (VRef l)) as Hsub2. rewrite Htr in Hsub2. simpl in Hsub2.
  exists j, h0. split; [reflexivity|]. split.
  - apply Hcopy; [|lia]. intros l0 c Hl0 _. eapply lookup_weaken; eassumption.
  - intros h2 Hkeep. apply Hcopy; [|lia]. eapply keeps_new_weaken; eassumption.
Qed.

Lemma serialize_on_stack fuel stack h l c :
  h !! l = Some c → has_toJSON c = false → l ∈ stack →
  serialize fuel stack h (VRef l) = Fails TypeError.
Proof.
  intros Hl Hno Hin.
  destruct fuel; simpl; rewrite Hl, Hno, (bool_decide_eq_true_2 _ Hin); reflexivity.
Qed.

Lemma serialize_members_Fails_at f fs k v :
  (∀ v' e, f v' = Fails e → e = TypeError) →
  (k, v) ∈ fs → f v = Fails TypeError →
  serialize_members f fs = Fails TypeError ∨ serialize_members f fs = CallerCode.
Proof.
  intros Hf Hin Hv. induction fs as [|[k0 v0] fs IH]; [apply elem_of_nil in Hin; contradiction|].
  simpl. apply elem_of_cons in Hin as [[= <- <-] | Hin].
  - rewrite Hv. auto.
  - destruct (f v0) as [j|e|] eqn:Hv0; simpl; [|rewrite (Hf _ _ Hv0); auto|auto].
    destruct (IH Hin) as [-> | ->]; auto.
Qed.

Lemma serialize_items_Fails_at f es v :
  (∀ v' e, f v' = Fails e → e = TypeError) →
  v ∈ es → f v = Fails TypeError →
  serialize_items f es = Fails TypeError ∨ serialize_items f es = CallerCode.
Proof.
  intros Hf Hin Hv. induction es as [|v0 es IH]; [apply elem_of_nil in Hin; contradiction|].
  simpl. apply elem_of_cons in Hin as [<- | Hin].
  - rewrite Hv. auto.
  - destruct (f v0) as [j|e|] eqn:Hv0; simpl; [|rewrite (Hf _ _ Hv0); auto|auto].
    destruct (IH Hin) as [-> | ->]; auto.
Qed.

(** The walk of an object or array that refers to itself fails, unless it
    reaches a [toJSON] function first. *)
Lemma JSON_walk_self h l c :
  h !! l = Some c → cell_refers c l →
  JSON_walk h (VRef l) = Fails TypeError ∨ JSON_walk h (VRef l) = CallerCode.
Proof.
  intros Hl Hself. unfold JSON_walk. cbn [serialize]. rewrite Hl.
  destruct (has_toJSON c) eqn:Hno; [auto|].
  rewrite bool_decide_eq_false_2 by (apply not_elem_of_nil).
  destruct c as [fs|es]; simpl in Hself.
  - destruct Hself as [k Hk].
    destruct (serialize_members_Fails_at (serialize (size h) [l] h) fs k (VRef l))
      as [-> | ->]; auto.
    + intros v' e. apply serialize_Fails.
    + eapply serialize_on_stack; [exact Hl | exact Hno|].
      apply elem_of_cons. left. reflexivity.
  - destruct (serialize_items_Fails_at (serialize (size h) [l] h) es (VRef l))
      as [-> | ->]; auto.
    + intros v' e. apply serialize_Fails.
    + eapply serialize_on_stack; [exact Hl | exact Hno|].
      apply elem_of_cons. left. reflexivity.
Qed.

(** A valid raw interaction whose response body is an object or array that
    has itself as a property value or element, and in which [JSON.stringify]
    reaches no [toJSON] function, is not constructed: the constructor throws
    the [TypeError] of [JSON.stringify], after the validation has passed, and
    the heap is as it was. *)
Theorem cyclic_body_TypeError rawInteraction mock w willRespondWith l c :
  valid_interaction (mem w) rawInteraction mock →
  get (mem w) rawInteraction "willRespondWith" = Ok willRespondWith →
  get (mem w) willRespondWith "body" = Ok (VRef l) →
  mem w !! l = Some c →
  cell_refers c l →
  JSON_walk (mem w) (VRef l) ≠ CallerCode →
  ∃ w1, new_Interaction rawInteraction mock w = (Throw TypeError, w1)
        ∧ mem w1 = mem w.
Proof.
  intros Hvalid Hww Hbody Hl Hself Hcode.
  pose proof (valid_validateInteraction_Ok _ _ _ Hvalid) as Hv.
  destruct Hvalid as (wr & ww & m & p & s & Hwr & Hww' & Hm & _ & _ & _ & _ & Hs & _).
  rewrite Hww in Hww'. injection Hww' as <-.
  destruct (get_defined _ _ _ _ "id" Hwr) as [id Hid].
  destruct (get_defined _ _ _ _ "port" Hwr) as [port Hport].
  destruct (get_defined _ _ _ _ "consumer" Hwr) as [cons Hcons].
  destruct (get_defined _ _ _ _ "provider" Hwr) as [prov Hprov].
  destruct (get_defined _ _ _ _ "state" Hwr) as [st Hst].
  destruct (get_defined _ _ _ _ "uponReceiving" Hwr) as [ur Hur].
  destruct (get_defined _ _ _ _ "headers" Hs) as [hd Hhd].
  destruct (new_InteractionRequest_total _ _ _ _ Hm) as [req Hreq].
  destruct (JSON_walk_self _ _ _ Hl Hself) as [Hwalk | Hwalk]; [|contradiction].
  unfold new_Interaction, bind, read.
  rewrite Hv, Hid, Hport, Hcons, Hprov, Hst, Hur, Hwr, Hww.
  assert (Hgen : ∃ id' w1, or_else_call id call_getRandomId w = (Ok id', w1)
                           ∧ mem w1 = mem w).
  { unfold or_else_call, ret, call_getRandomId. destruct (truthy id); eauto. }
  destruct Hgen as (id' & w1 & -> & Hmem). rewrite Hmem, Hreq.
  exists (set_mem (mem w) w1). split; [|reflexivity].
  unfold new_InteractionResponse, bind, read. rewrite Hmem, Hs, Hhd, Hbody.
  simpl. unfold json_copy, JSON_stringify. rewrite Hmem, Hwalk.
  reflexivity.
Qed.

End Bodies.

(** ** The control plane: delegation *)

Section Delegation.
Context `{Externals}.

Lemma is_number_true port : typeof port = "number" → Mock.is_number port = true.
Proof. unfold Mock.is_number. intros ->. reflexivity. Qed.

Lemma default_port_run port w :
  Mock.default_port port w
  = (Ok (match port with VUndefined => config_mock_port w | _ => port end), w).
Proof. reflexivity. Qed.

(** [start] and [stop] look at the port they will use, the argument or
    [config.mock.port] when the argument is [undefined]: when it is a number
    the server receives exactly one call with it, nothing else changes, and
    the method returns or raises as the server does; when it is not, the
    method throws and the server receives nothing: what it throws is the
    [PactumConfigurationError] with the text of the port when the port has a
    text, and what the conversion raises otherwise; nothing but the heap has
    changed then, and the heap only by what a conversion function of the
    port, when it has one, does. *)
Theorem start_stop_delegate port w :
  let p := match port with VUndefined => config_mock_port w | _ => port end in
  (typeof p = "number" →
   Mock.start port w
   = (of_reply (server_reply (server w) (Server.start p)),
      World (mem w) (config_mock_port w) (config_pact_consumer w) (random_ids w)
        (server w ++ [Server.start p]) (interactions w) (store w))
   ∧ Mock.stop port w
     = (of_reply (server_reply (server w) (Server.stop p)),
        World (mem w) (config_mock_port w) (config_pact_consumer w) (random_ids w)
          (server w ++ [Server.stop p]) (interactions w) (store w)))
  ∧ (typeof p ≠ "number" →
     Mock.start port w
     = (Throw (configuration_error
                 "Invalid port number given to start the mock server - " (mem w) p),
        set_mem (ToString (mem w) p).2 w)
     ∧ Mock.stop port w
       = (Throw (configuration_error
                   "Invalid port number given to stop the mock server - " (mem w) p),
          set_mem (ToString (mem w) p).2 w)).
Proof.
  intros p. split; intros Hty.
  - unfold Mock.start, Mock.stop.
    rewrite !(bind_Ok _ _ _ _ _ (default_port_run port w)). fold p.
    rewrite (is_number_true _ Hty). split; reflexivity.
  - unfold Mock.start, Mock.stop.
    rewrite !(bind_Ok _ _ _ _ _ (default_port_run port w)). fold p.
    rewrite (is_number_false _ Hty). split; reflexivity.
Qed.

(** [removeDefaultInteraction] checks the id before the port: an id that is
    not non-empty text is rejected whatever the port is; with a good id, a
    port (the argument, or [config.mock.port] for [undefined]) that is not a
    number is rejected; otherwise the server receives exactly one removal
    call with the id and the port, and the method returns or raises as the
    server does.  A rejection is the [PactumConfigurationError] with the text
    of the rejected value when the value has a text, and what the conversion
    raises otherwise; it leaves everything as it was, but for what a
    conversion function of the rejected value, when it has one, does to the
    heap.  The table of the control plane is never touched. *)
Theorem removeDefaultInteraction_checks interactionId port w :
  let p := match port with VUndefined => config_mock_port w | _ => port end in
  (not_text interactionId = true →
   Mock.removeDefaultInteraction interactionId port w
   = (Throw (configuration_error "Invalid interaction id - " (mem w) interactionId),
      set_mem (ToString (mem w) interactionId).2 w))
  ∧ (not_text interactionId = false → typeof p ≠ "number" →
     Mock.removeDefaultInteraction interactionId port w
     = (Throw (configuration_error "Invalid port number - " (mem w) p),
        set_mem (ToString (mem w) p).2 w))
  ∧ (not_text interactionId = false → typeof p = "number" →
     Mock.removeDefaultInteraction interactionId port w
     = (of_reply (server_reply (server w) (Server.removeDefaultInteraction interactionId p)),
        World (mem w) (config_mock_port w) (config_pact_consumer w) (random_ids w)
          (server w ++ [Server.removeDefaultInteraction interactionId p])
          (interactions w) (store w))).
Proof.
  intros p. unfold Mock.removeDefaultInteraction.
  rewrite (bind_Ok _ _ _ _ _ (default_port_run port w)). fold p.
  split; [|split].
  - intros ->. reflexivity.
  - intros -> Hty. rewrite (is_number_false _ Hty). reflexivity.
  - intros -> Hty. rewrite (is_number_true _ Hty). reflexivity.
Qed.

(** The port a constructed interaction gets. *)
Lemma new_Interaction_port rawInteraction mock w i w' :
  new_Interaction rawInteraction mock w = (Ok i, w') →
  ∃ port, get (mem w) rawInteraction "port" = Ok port
          ∧ Interaction.port i = or_else port (config_mock_port w).
Proof.
  unfold new_Interaction. intros Hi.
  apply bind_Ok_inv in Hi as ([] & ? & Hv & Hi).
  apply validateInteraction_Ok_valid in Hv as [-> _].
  apply bind_Ok_inv in Hi as (id & ? & Hid & Hi). apply read_inv in Hid as [Hid ->].
  apply bind_Ok_inv in Hi as (port & ? & Hport & Hi). apply read_inv in Hport as [Hport ->].
  do 6 (apply bind_Ok_inv in Hi as (? & ? & Hr & Hi); apply read_inv in Hr as [_ ->]).
  apply bind_Ok_inv in Hi as (id' & w1 & Hgen & Hi).
  assert (Hcfg : config_mock_port w1 = config_mock_port w).
  { unfold or_else_call, ret, call_getRandomId in Hgen.
    destruct (truthy id); injection Hgen as _ <-; reflexivity. }
  apply bind_Ok_inv in Hi as (port' & ? & Hp' & Hi). injection Hp' as <- <-.
  do 3 (apply bind_Ok_inv in Hi as (? & ? & _ & Hi)).
  injection Hi as <- _. simpl. rewrite Hcfg. eauto.
Qed.

(** [setDefaultPort] changes the port of the interactions constructed after
    it: a raw interaction without a truthy [port] gets the new default.  It
    changes nothing else: the calls the server has received, with the
    interactions registered so far and their ports, stay as they are. *)
Theorem setDefaultPort_applies_afterwards port rawInteraction mock w rawPort i w' :
  typeof port = "number" →
  get (mem w) rawInteraction "port" = Ok rawPort →
  truthy rawPort = false →
  new_Interaction rawInteraction mock (Mock.setDefaultPort port w).2 = (Ok i, w') →
  (Mock.setDefaultPort port w).1 = Ok tt
  ∧ Interaction.port i = port
  ∧ server (Mock.setDefaultPort port w).2 = server w
  ∧ interactions (Mock.setDefaultPort port w).2 = interactions w
  ∧ store (Mock.setDefaultPort port w).2 = store w.
Proof.
  intros Hty Hraw Hfalsy. unfold Mock.setDefaultPort.
  rewrite (is_number_true _ Hty). simpl. intros Hi.
  apply new_Interaction_port in Hi as (rp & Hrp & Hport). simpl in Hrp, Hport.
  rewrite Hraw in Hrp. injection Hrp as <-.
  unfold or_else in Hport. rewrite Hfalsy in Hport. auto.
Qed.

End Delegation.

(** ** The control plane: registration *)

Section Registration.
Context `{Externals}.

(** What the constructor leaves unchanged, on return and on failure. *)
Lemma new_Interaction_unchanged rawInteraction mock w r w' :
  new_Interaction rawInteraction mock w = (r, w') →
  server w' = server w ∧ interactions w' = interactions w ∧ store w' = store w
  ∧ config_mock_port w' = config_mock_port w
  ∧ config_pact_consumer w' = config_pact_consumer w.
Proof.
  intros Hi. destruct (new_Interaction_frame _ _ _ _ _ Hi) as (h & n & ->).
  simpl. auto.
Qed.

(** Registering a mock interaction, alone or in a batch, never touches the
    table of the control plane, the store or the configuration, whether it
    returns or throws: mock interactions live in the server only. *)
Theorem mock_registration_server_only :
  (∀ interaction w r w',
     Mock.addDefaultMockInteraction interaction w = (r, w') →
     interactions w' = interactions w ∧ store w' = store w
     ∧ config_mock_port w' = config_mock_port w
     ∧ config_pact_consumer w' = config_pact_consumer w)
  ∧ (∀ batch w r w',
       Mock.addDefaultMockInteractions batch w = (r, w') →
       interactions w' = interactions w ∧ store w' = store w
       ∧ config_mock_port w' = config_mock_port w
       ∧ config_pact_consumer w' = config_pact_consumer w).
Proof.
  split.
  - intros raw w r w'. unfold Mock.addDefaultMockInteraction. intros Hr.
    apply bind_inv in Hr as [(e & Hi & _) | (o & w1 & Hi & Hr)].
    + apply new_Interaction_unchanged in Hi. tauto.
    + apply new_Interaction_unchanged in Hi as (_ & Ht & Hs & Hp & Hc).
      apply bind_inv in Hr as [(e & Hc' & _) | ([] & w2 & Hc' & Hr)];
        rewrite call_server_run in Hc'; injection Hc' as _ <-.
      * simpl. auto.
      * injection Hr as _ <-. simpl. auto.
  - intros batch w r w'. unfold Mock.addDefaultMockInteractions.
    destruct (negb (isArray (mem w) batch)).
    + intros [= _ <-]. auto.
    + intros Hr. destruct (batch_loop_frame _ _ _ _ _ _ Hr).
      destruct (batch_loop_config _ _ _ _ _ _ Hr). auto.
Qed.

(** Registering a pact interaction: on return the table maps the returned id
    to the constructed interaction and maps every other id as before, the
    server has received its registration and the store the interaction.  On
    failure, either the constructor has thrown, and the server, the table and
    the store are as they were; or the server or the store has raised, and
    then the table has the new entry and the server has received the
    registration all the same, the table being written first. *)
Theorem pact_registration_recorded interaction w :
  (∀ id w',
     Mock.addDefaultPactInteraction interaction w = (Ok id, w') →
     ∃ o, interactions w' !! id = Some o
          ∧ Interaction.id o = id
          ∧ Interaction.rawInteraction o = interaction
          ∧ Interaction.mock o = false
          ∧ (∀ other, other ≠ id → interactions w' !! other = interactions w !! other)
          ∧ server w' = (server w ++ [registration o])%list
          ∧ store w' = (store w ++ [o])%list)
  ∧ (∀ e w',
       Mock.addDefaultPactInteraction interaction w = (Throw e, w') →
       (new_Interaction interaction false w = (Throw e, w')
        ∧ server w' = server w ∧ interactions w' = interactions w ∧ store w' = store w)
       ∨ ∃ o what,
           Interaction.rawInteraction o = interaction
           ∧ e = Other what
           ∧ interactions w' = <[Interaction.id o := o]> (interactions w)
           ∧ server w' = (server w ++ [registration o])%list
           ∧ (server_reply (server w) (registration o) = Raises what ∧ store w' = store w
              ∨ server_reply (server w) (registration o) = Returns tt
                ∧ store_reply (store w) o = Raises what
                ∧ store w' = (store w ++ [o])%list)).
Proof.
  split.
  - intros id w' Hr.
    apply addDefaultPactInteraction_Ok in Hr as (o & -> & Hraw & Hmock & Ht & Hs & Hst).
    exists o. rewrite Ht. repeat split; try assumption.
    + apply lookup_insert_eq.
    + intros other Hne. apply lookup_insert_ne. congruence.
  - intros e w'. unfold Mock.addDefaultPactInteraction. intros Hr.
    apply bind_Throw_inv in Hr as [Hi | (o & w1 & Ho & Hr)].
    + left. split; [exact Hi|]. apply new_Interaction_unchanged in Hi. tauto.
    + right. destruct (new_Interaction_fields _ _ _ _ _ Ho) as [Hraw _].
      destruct (new_Interaction_frame _ _ _ _ _ Ho) as (h & n & ->).
      apply bind_Throw_inv in Hr as [Hr | ([] & w2 & Hset & Hr)]; [discriminate|].
      injection Hset as <-.
      apply bind_Throw_inv in Hr as [Hr | ([] & w3 & Hcall & Hr)].
      * rewrite call_server_run in Hr. simpl in Hr. injection Hr as Hreply <-.
        destruct (server_reply (server w) _) as [[]|what] eqn:Hsrv; [discriminate|].
        injection Hreply as <-. exists o, what. simpl. auto 10.
      * apply call_server_Ok_inv in Hcall as [Hsrv ->]. simpl in Hsrv.
        apply bind_Throw_inv in Hr as [Hr | (? & ? & _ & Hr)]; [|discriminate].
        rewrite store_addInteraction_run in Hr. simpl in Hr. injection Hr as Hreply <-.
        destruct (store_reply (store w) o) as [[]|what] eqn:Hst; [discriminate|].
        injection Hreply as <-. exists o, what. simpl. auto 10.
Qed.

(** Two pact interactions registered one after the other under the same id:
    the table keeps the second only, while the server and the store have
    received both, in order. *)
Theorem pact_same_id_last_wins first second w id w1 w2 :
  Mock.addDefaultPactInteraction first w = (Ok id, w1) →
  Mock.addDefaultPactInteraction second w1 = (Ok id, w2) →
  ∃ o1 o2,
    Interaction.rawInteraction o1 = first
    ∧ Interaction.rawInteraction o2 = second
    ∧ interactions w2 = <[id := o2]> (interactions w)
    ∧ server w2 = (server w ++ [registration o1; registration o2])%list
    ∧ store w2 = (store w ++ [o1; o2])%list.
Proof.
  intros H1 H2.
  apply addDefaultPactInteraction_Ok in H1 as (o1 & Hid1 & Hraw1 & _ & Ht1 & Hs1 & Hst1).
  apply addDefaultPactInteraction_Ok in H2 as (o2 & Hid2 & Hraw2 & _ & Ht2 & Hs2 & Hst2).
  exists o1, o2. rewrite Ht2, Ht1, Hs2, Hs1, Hst2, Hst1, <- Hid1, <- Hid2.
  rewrite insert_insert_eq, <- !app_assoc. auto.
Qed.

End Registration.

Section BatchOutcome.
Context `{Externals}.




(** ** The caller's objects *)


















End BatchOutcome.

(** ** Identifiers and removal *)

Section Identifiers.
Context `{Externals}.

(** The id a constructed interaction gets. *)
Lemma new_Interaction_id rawInteraction mock w i w' :
  new_Interaction rawInteraction mock w = (Ok i, w') →
  ∃ id, get (mem w) rawInteraction "id" = Ok id
        ∧ Interaction.id i
          = (if truthy id then id else VStr (getRandomId (random_ids w))).
Proof.
  unfold new_Interaction. intros Hi.
  apply bind_Ok_inv in Hi as ([] & ? & Hv & Hi).
  apply validateInteraction_Ok_valid in Hv as [-> _].
  apply bind_Ok_inv in Hi as (id & ? & Hid & Hi). apply read_inv in Hid as [Hid ->].
  do 7 (apply bind_Ok_inv in Hi as (? & ? & Hr & Hi); apply read_inv in Hr as [_ ->]).
  apply bind_Ok_inv in Hi as (id' & w1 & Hgen & Hi).
  do 4 (apply bind_Ok_inv in Hi as (? & ? & _ & Hi)).
  injection Hi as <- _. simpl. exists id. split; [exact Hid|].
  unfold or_else_call, ret, call_getRandomId in Hgen.
  destruct (truthy id); injection Hgen as <- _; reflexivity.
Qed.

(** The constructor does not check the type of [id]: a mock interaction with
    a truthy id that is not a string (a number, say) is registered with the
    server under that very id, yet [removeDefaultInteraction] rejects the id,
    whatever the port, and leaves the registration where it is: the removal
    throws the [PactumConfigurationError] with the text of the id when the id
    has a text, and what the conversion raises otherwise, and makes no call
    on the server; nothing but the heap changes, and the heap only by what a
    conversion function of the id, when it has one, does. *)
Theorem non_text_id_cannot_be_removed interaction w rawId id w1 :
  get (mem w) interaction "id" = Ok rawId →
  truthy rawId = true →
  typeof rawId ≠ "string" →
  Mock.addDefaultMockInteraction interaction w = (Ok id, w1) →
  id = rawId
  ∧ (∃ o, Interaction.rawInteraction o = interaction
          ∧ server w1 = (server w ++ [Server.addDefaultInteraction rawId o])%list)
  ∧ ∀ port,
      Mock.removeDefaultInteraction id port w1
      = (Throw (configuration_error "Invalid interaction id - " (mem w1) id),
         set_mem (ToString (mem w1) id).2 w1).
Proof.
  intros Hraw Htruthy Hty Hadd.
  assert (Hid : id = rawId).
  { unfold Mock.addDefaultMockInteraction in Hadd.
    apply bind_Ok_inv in Hadd as (o & w0 & Ho & Hadd).
    apply bind_Ok_inv in Hadd as ([] & w2 & _ & Hadd). injection Hadd as <- <-.
    apply new_Interaction_id in Ho as (rid & Hrid & Hid).
    rewrite Hraw in Hrid. injection Hrid as <-. rewrite Htruthy in Hid. exact Hid. }
  split; [exact Hid|]. split.
  - apply addDefaultMockInteraction_Ok in Hadd as (o & Hido & Hrawo & _ & Hsrv & _).
    exists o. split; [exact Hrawo|]. rewrite Hsrv. unfold registration.
    rewrite <- Hido, Hid. reflexivity.
  - intros port. rewrite Hid.
    unfold Mock.removeDefaultInteraction.
    rewrite (bind_Ok _ _ _ _ _ (default_port_run port w1)).
    assert (Hnt : not_text rawId = true).
    { unfold not_text. destruct (String.eqb_spec (typeof rawId) "string"); [contradiction|].
      reflexivity. }
    rewrite Hnt. reflexivity.
Qed.


(** The request descriptor of a constructed interaction holds the values of
    the raw request as they are: [headers], [query] and [body] are not
    copied, so an object among them is the caller's own object (unlike
    [rawBody] of the response). *)
Theorem request_shares_callers_objects rawInteraction mock w i w' :
  new_Interaction rawInteraction mock w = (Ok i, w') →
  ∃ withRequest,
    get (mem w) rawInteraction "withRequest" = Ok withRequest
    ∧ get (mem w) withRequest "headers"
      = Ok (InteractionRequest.headers (Interaction.withRequest i))
    ∧ get (mem w) withRequest "query"
      = Ok (InteractionRequest.query (Interaction.withRequest i))
    ∧ get (mem w) withRequest "body"
      = Ok (InteractionRequest.body (Interaction.withRequest i)).
Proof.
  intros Hi.
  destruct (new_Interaction_Ok_inv _ _ _ _ _ Hi)
    as (wr & ww & w1 & _ & Hwr & _ & _ & _ & _ & _ & Hreq & _).
  exists wr. split; [exact Hwr|].
  unfold new_InteractionRequest in Hreq.
  apply rbind_Ok_inv in Hreq as (m & Hm & Hreq).
  apply rbind_Ok_inv in Hreq as (p & Hp & Hreq).
  apply rbind_Ok_inv in Hreq as (hd & Hhd & Hreq).
  apply rbind_Ok_inv in Hreq as (q & Hq & Hreq).
  apply rbind_Ok_inv in Hreq as (b & Hb & Hreq).
  apply rbind_Ok_inv in Hreq as (ib & Hib & Hreq).
  apply rbind_Ok_inv in Hreq as (iq & Hiq & Hreq).
  injection Hreq as <-. simpl. auto.
Qed.

End Identifiers.

(** ** The further properties on concrete inputs *)

Lemma contract_fields_checked_in_order_witness :
  new_Interaction (H := sample_externals) (VRef 1) false (world_of heap_lowercase_method)
  = (Throw (PactumInteractionError "Invalid provider name provided - undefined"),
     world_of heap_lowercase_method)
  ∧ new_Interaction (H := sample_externals) (VRef 1) false (world_of heap_provider_object)
    = (Throw TypeError, world_of heap_provider_object).
Proof.
  split.
  - refine (proj1 (contract_fields_checked_in_order (H := sample_externals) (VRef 1)
                     (world_of heap_lowercase_method) VUndefined VUndefined VUndefined
                     _ _ _ _) _); reflexivity.
  - refine (proj1 (contract_fields_checked_in_order (H := sample_externals) (VRef 1)
                     (world_of heap_provider_object) (VRef 4) (VStr "there is a project")
                     (VStr "a request for the project") _ _ _ _) _); reflexivity.
Defined.


Lemma path_must_be_text_witness :
  new_Interaction (H := sample_externals) (VRef 1) true (world_of heap_no_path)
  = (Throw (PactumInteractionError "Invalid interaction request path provided - undefined"),
     world_of heap_no_path).
Proof.
  apply (path_must_be_text (H := sample_externals) (VRef 1) true (world_of heap_no_path)
           (VRef 2) (VStr "GET") VUndefined).
  - reflexivity.
  - left. reflexivity.
  - reflexivity.
  - reflexivity.
  - vm_compute. reflexivity.
  - reflexivity.
  - reflexivity.
Defined.


Lemma validateInteraction_accepts_iff_witness :
  validateInteraction (H := sample_externals) (VRef 1) false (world_of heap_pact)
  = (Ok tt, world_of heap_pact).
Proof.
  apply (validateInteraction_accepts_iff (H := sample_externals) (VRef 1) false
           (world_of heap_pact) (world_of heap_pact)).
  split; [reflexivity|].
  exists (VRef 2), (VRef 3), (VStr "GET"), (VStr "/api/projects/1"), (VNum (NInt 200)).
  repeat split; try reflexivity.
  - exists (VStr "project-service"), (VStr "there is a project"),
      (VStr "a request for the project").
    repeat split; reflexivity.
  - exists VUndefined, VUndefined. repeat split; reflexivity.
Defined.


Lemma constructed_Interaction_valid_witness :
  ∃ i w', new_Interaction (H := sample_externals) (VRef 1) false (world_of heap_pact)
          = (Ok i, w')
    ∧ not_text (Interaction.provider i) = false
    ∧ InteractionRequest.ignoreBody (Interaction.withRequest i) = VBool false.
Proof.
  destruct (new_Interaction (H := sample_externals) (VRef 1) false (world_of heap_pact))
    as [[i|e] w'] eqn:Hrun; [|vm_compute in Hrun; discriminate].
  exists i, w'. split; [reflexivity|].
  destruct (constructed_Interaction_valid (H := sample_externals) _ _ _ _ _ Hrun)
    as (_ & _ & _ & _ & _ & Hcontract).
  destruct (Hcontract eq_refl) as (Hp & _ & _ & Hb & _). auto.
Defined.

Lemma new_Interaction_returns_iff_witness :
  ∃ i w', new_Interaction (H := sample_externals) (VRef 4) true (world_of heap_batch)
          = (Ok i, w').
Proof.
  apply (new_Interaction_returns_iff (H := sample_externals) (VRef 4) true
           (world_of heap_batch)).
  split.
  - exists (VRef 2), (VRef 3), (VStr "GET"), (VStr "/api/projects"), (VNum (NInt 200)).
    repeat split; try reflexivity; discriminate.
  - intros ww body Hww Hbody. vm_compute in Hww. injection Hww as <-.
    vm_compute in Hbody. injection Hbody as <-.
    right. do 2 eexists. vm_compute. reflexivity.
Defined.

Lemma primitive_body_kept_witness :
  ∃ r w', new_InteractionResponse (H := sample_externals) (VRef 3) (world_of heap_pact)
          = (Ok r, w')
    ∧ InteractionResponse.rawBody r = VUndefined
    ∧ mem w' = heap_pact.
Proof.
  destruct (new_InteractionResponse (H := sample_externals) (VRef 3) (world_of heap_pact))
    as [[r|e] w'] eqn:Hrun; [|vm_compute in Hrun; discriminate].
  exists r, w'. split; [reflexivity|].
  destruct (primitive_body_kept (H := sample_externals) (VRef 3) (world_of heap_pact)
              r w' VUndefined Hrun)
    as (Hraw & _ & Hmem).
  - reflexivity.
  - left. discriminate.
  - split; [exact Hraw | exact Hmem].
Defined.

Lemma rawBody_is_plain_JSON_witness :
  ∃ r w' j h1,
    new_InteractionResponse (H := sample_externals) (VRef 1) (world_of heap_nan)
    = (Ok r, w')
    ∧ JSON_stringify (H := sample_externals) heap_nan (VRef 2) = (Ok (Some j), h1)
    ∧ snapshot (json_depth j) (mem w') (InteractionResponse.rawBody r)
      = Some (json_tree j).
Proof.
  destruct (new_InteractionResponse (H := sample_externals) (VRef 1) (world_of heap_nan))
    as [[r|e] w'] eqn:Hrun; [|vm_compute in Hrun; discriminate].
  destruct (rawBody_is_plain_JSON (H := sample_externals) (VRef 1) (world_of heap_nan)
              r w' 2)
    as (j & h1 & Hj & Hsnap & _).
  - intros h v. simpl. reflexivity.
  - exact Hrun.
  - reflexivity.
  - exists r, w', j, h1. split; [reflexivity|]. split; [exact Hj | exact Hsnap].
Defined.

Lemma cyclic_body_TypeError_witness :
  ∃ w1, new_Interaction (H := sample_externals) (VRef 1) true (world_of heap_cycle)
        = (Throw TypeError, w1)
        ∧ mem w1 = heap_cycle.
Proof.
  apply (cyclic_body_TypeError (H := sample_externals) (VRef 1) true (world_of heap_cycle)
           (VRef 3) 4 (CObj [("name", VStr "pactum"); ("self", VRef 4)])).
  - exists (VRef 2), (VRef 3), (VStr "GET"), (VStr "/api/projects"), (VNum (NInt 200)).
    repeat split; try reflexivity; discriminate.
  - reflexivity.
  - reflexivity.
  - reflexivity.
  - exists "self". apply elem_of_cons. right. apply elem_of_cons. left. reflexivity.
  - vm_compute. discriminate.
Defined.

Lemma start_stop_delegate_witness :
  Mock.start (H := sample_externals) VUndefined (world_of ∅)
  = (Ok tt, World ∅ (VNum (NInt 9393)) (VStr "consumer") 0
              [Server.start (VNum (NInt 9393))] ∅ []).
Proof.
  refine (proj1 (proj1 (start_stop_delegate (H := sample_externals) VUndefined
                          (world_of ∅)) _)).
  reflexivity.
Defined.

Lemma removeDefaultInteraction_checks_witness :
  Mock.removeDefaultInteraction (H := sample_externals) (VStr "") (VStr "9393") (world_of ∅)
  = (Throw (PactumConfigurationError "Invalid interaction id - "), world_of ∅)
  ∧ Mock.removeDefaultInteraction (H := sample_externals) (VStr "first") VUndefined
      (world_of ∅)
    = (Ok tt, World ∅ (VNum (NInt 9393)) (VStr "consumer") 0
                [Server.removeDefaultInteraction (VStr "first") (VNum (NInt 9393))] ∅ []).
Proof.
  split.
  - refine (proj1 (removeDefaultInteraction_checks (H := sample_externals) (VStr "")
                     (VStr "9393") (world_of ∅)) _).
    reflexivity.
  - refine (proj2 (proj2 (removeDefaultInteraction_checks (H := sample_externals)
                            (VStr "first") VUndefined (world_of ∅))) _ _);
      reflexivity.
Defined.

Lemma setDefaultPort_applies_afterwards_witness :
  ∃ i w',
    new_Interaction (H := sample_externals) (VRef 4) true
      (Mock.setDefaultPort (H := sample_externals) (VNum (NInt 3000)) (world_of heap_batch)).2
    = (Ok i, w')
    ∧ Interaction.port i = VNum (NInt 3000).
Proof.
  destruct (new_Interaction (H := sample_externals) (VRef 4) true
              (Mock.setDefaultPort (H := sample_externals) (VNum (NInt 3000))
                 (world_of heap_batch)).2)
    as [[i|e] w'] eqn:Hrun; [|vm_compute in Hrun; discriminate].
  exists i, w'. split; [reflexivity|].
  refine (proj1 (proj2 (setDefaultPort_applies_afterwards (H := sample_externals)
                          (VNum (NInt 3000)) (VRef 4) true (world_of heap_batch)
                          VUndefined i w' _ _ _ Hrun))); reflexivity.
Defined.

Lemma mock_registration_server_only_witness :
  interactions
    (Mock.addDefaultMockInteraction (H := sample_externals) (VRef 1) (world_of heap_batch)).2
  = ∅
  ∧ store
      (Mock.addDefaultMockInteractions (H := sample_externals) (VRef 7)
         (world_of heap_batch)).2
    = [].
Proof.
  destruct (mock_registration_server_only (H := sample_externals)) as [Hone Hbatch].
  split.
  - refine (proj1 (Hone (VRef 1) (world_of heap_batch) _ _ _)).
    apply surjective_pairing.
  - refine (proj1 (proj2 (Hbatch (VRef 7) (world_of heap_batch) _ _ _))).
    apply surjective_pairing.
Defined.

Lemma pact_registration_recorded_witness :
  ∃ id w' o,
    Mock.addDefaultPactInteraction (H := sample_externals) (VRef 1) (world_of heap_pact)
    = (Ok id, w')
    ∧ interactions w' !! id = Some o
    ∧ Interaction.rawInteraction o = VRef 1
    ∧ store w' = [o].
Proof.
  destruct (Mock.addDefaultPactInteraction (H := sample_externals) (VRef 1)
              (world_of heap_pact))
    as [[id|e] w'] eqn:Hrun; [|vm_compute in Hrun; discriminate].
  destruct (proj1 (pact_registration_recorded (H := sample_externals) (VRef 1)
                     (world_of heap_pact)) id w' Hrun)
    as (o & Hlook & _ & Hraw & _ & _ & _ & Hstore).
  exists id, w', o. repeat split; assumption.
Defined.

Lemma pact_same_id_last_wins_witness :
  ∃ w2 o1 o2,
    interactions w2 = {[ VStr "p1" := o2 ]}
    ∧ store w2 = [o1; o2].
Proof.
  pose (w1 := (Mock.addDefaultPactInteraction (H := sample_externals) (VRef 1)
                 (world_of heap_pact_id)).2).
  pose (w2 := (Mock.addDefaultPactInteraction (H := sample_externals) (VRef 1) w1).2).
  destruct (pact_same_id_last_wins (H := sample_externals) (VRef 1) (VRef 1)
              (world_of heap_pact_id) (VStr "p1") w1 w2)
    as (o1 & o2 & _ & _ & Htable & _ & Hstore).
  - vm_compute. reflexivity.
  - vm_compute. reflexivity.
  - exists w2, o1, o2. split; [exact Htable | exact Hstore].
Defined.





Lemma non_text_id_cannot_be_removed_witness :
  ∃ w1 o,
    Mock.addDefaultMockInteraction (H := sample_externals) (VRef 1) (world_of heap_post)
    = (Ok (VNum (NInt 7)), w1)
    ∧ server w1 = [Server.addDefaultInteraction (VNum (NInt 7)) o]
    ∧ Mock.removeDefaultInteraction (H := sample_externals) (VNum (NInt 7)) VUndefined w1
      = (Throw (PactumConfigurationError "Invalid interaction id - 7"), w1).
Proof.
  pose (w1 := (Mock.addDefaultMockInteraction (H := sample_externals) (VRef 1)
                 (world_of heap_post)).2).
  assert (Hrun : Mock.addDefaultMockInteraction (H := sample_externals) (VRef 1)
                   (world_of heap_post) = (Ok (VNum (NInt 7)), w1))
    by (vm_compute; reflexivity).
  destruct (non_text_id_cannot_be_removed (H := sample_externals) (VRef 1)
              (world_of heap_post) (VNum (NInt 7)) (VNum (NInt 7)) w1)
    as (_ & (o & _ & Hsrv) & Hremove).
  - reflexivity.
  - reflexivity.
  - discriminate.
  - exact Hrun.
  - exists w1, o. split; [exact Hrun|]. split; [exact Hsrv|].
    exact (Hremove VUndefined).
Defined.


Lemma request_shares_callers_objects_witness :
  ∃ i w',
    new_Interaction (H := sample_externals) (VRef 1) true (world_of heap_post) = (Ok i, w')
    ∧ InteractionRequest.body (Interaction.withRequest i) = VRef 4.
Proof.
  destruct (new_Interaction (H := sample_externals) (VRef 1) true (world_of heap_post))
    as [[i|e] w'] eqn:Hrun; [|vm_compute in Hrun; discriminate].
  exists i, w'. split; [reflexivity|].
  destruct (request_shares_callers_objects (H := sample_externals) _ _ _ _ _ Hrun)
    as (wr & Hwr & _ & _ & Hbody).
  vm_compute in Hwr. injection Hwr as <-.
  change (Ok (VRef 4) = Ok (InteractionRequest.body (Interaction.withRequest i))) in Hbody.
  injection Hbody as Hbody. symmetry. exact Hbody.
Defined.
